(** * QCustomLog: buffering, flushing and log-file rotation

    A shallow embedding of [qcustomlog.cpp] / [qcustomlog.h].  The static
    members of [QCustomLog] become the fields of a state record, the log
    directory becomes a finite map from file names to file contents, and
    every observable effect (console output, observer and error callbacks,
    file operations) is appended to a chronological trace.  One call is
    followed at a time; what other threads do to the buffer while the call
    has released the buffer lock is given by the environment of the call.
    The two running averages are single-precision numbers. *)

From Stdlib Require Import ZArith Ascii String.
From Stdlib Require Import Floats.SpecFloat.
From stdpp Require Import gmap strings list fin_maps pretty sorting.

Open Scope string_scope.
Open Scope list_scope.

(** ** Severity levels *)

(** [QtMsgType].  Qt declares the enumerators in the order Debug, Warning,
    Critical, Fatal, Info; the code never relies on that order. *)
Inductive QtMsgType : Type :=
  | QtDebugMsg
  | QtInfoMsg
  | QtWarningMsg
  | QtCriticalMsg
  | QtFatalMsg.

#[global] Instance QtMsgType_eq_dec : EqDecision QtMsgType.
Proof. solve_decision. Defined.

(** [QCustomLog::levelGreaterOrEqual].  The [default:] arm of the C++ switch
    covers enumerator values outside the five levels and has no counterpart
    for this type. *)
Definition levelGreaterOrEqual (level minLevel : QtMsgType) : bool :=
  if decide (level = minLevel) then true
  else
    match minLevel with
    | QtDebugMsg => true
    | QtInfoMsg =>
        if decide (level = QtDebugMsg) then false else true
    | QtWarningMsg =>
        if decide (level = QtDebugMsg \/ level = QtInfoMsg) then false else true
    | QtCriticalMsg =>
        if decide (level = QtCriticalMsg \/ level = QtFatalMsg) then true else false
    | QtFatalMsg =>
        if decide (level = QtFatalMsg) then true else false
    end.

(** The order Debug < Info < Warning < Critical < Fatal of the specification. *)
Definition levelRank (l : QtMsgType) : nat :=
  match l with
  | QtDebugMsg => 0
  | QtInfoMsg => 1
  | QtWarningMsg => 2
  | QtCriticalMsg => 3
  | QtFatalMsg => 4
  end.

(** The threshold table of the specification (section 4.1), row by row:
    the row is the minimum level, the column the record's level. *)
Definition thresholdTable (minLevel level : QtMsgType) : bool :=
  match minLevel, level with
  | QtDebugMsg, _ => true
  | QtInfoMsg, QtDebugMsg => false
  | QtInfoMsg, _ => true
  | QtWarningMsg, (QtDebugMsg | QtInfoMsg) => false
  | QtWarningMsg, _ => true
  | QtCriticalMsg, (QtCriticalMsg | QtFatalMsg) => true
  | QtCriticalMsg, _ => false
  | QtFatalMsg, QtFatalMsg => true
  | QtFatalMsg, _ => false
  end.

(** ** The [QString] operations used by the rotation code *)

Module QStr.

(** The double-quote and escape characters of the message literals. *)
Definition dquote : string := String (ascii_of_nat 34) "".
Definition esc : string := String (ascii_of_nat 27) "".
(** The line terminator written after every line (['\n']). *)
Definition newline : string := String (ascii_of_nat 10) "".

Fixpoint indexOfFrom (c : ascii) (s : string) (i : Z) : Z :=
  match s with
  | EmptyString => (-1)%Z
  | String a s' => if decide (a = c) then i else indexOfFrom c s' (i + 1)%Z
  end.

(** [QString::indexOf(QChar)]: position of the first occurrence, or -1. *)
Definition indexOf (c : ascii) (s : string) : Z := indexOfFrom c s 0.

Fixpoint lastIndexOfFrom (c : ascii) (s : string) (i found : Z) : Z :=
  match s with
  | EmptyString => found
  | String a s' =>
      lastIndexOfFrom c s' (i + 1)%Z (if decide (a = c) then i else found)
  end.

(** [QString::lastIndexOf(QChar)]: position of the last occurrence, or -1. *)
Definition lastIndexOf (c : ascii) (s : string) : Z :=
  lastIndexOfFrom c s 0 (-1).

(** [QString::mid(position, n)]: the empty string when [position] is past
    the end, everything from [position] on when [n] is negative or reaches
    past the end.  A negative [position] shortens [n] accordingly. *)
Definition mid (s : string) (position n : Z) : string :=
  let len := Z.of_nat (String.length s) in
  if (len <? position)%Z then ""
  else if (position <? 0)%Z then
    if (n <? 0)%Z || (len <=? n + position)%Z then s
    else if (n + position <=? 0)%Z then ""
    else substring 0 (Z.to_nat (n + position)) s
  else if (n <? 0)%Z || (len - position <? n)%Z then
    substring (Z.to_nat position) (Z.to_nat (len - position)) s
  else substring (Z.to_nat position) (Z.to_nat n) s.

Definition digitValue (a : ascii) : option N :=
  let n := N_of_ascii a in
  if (48 <=? n)%N && (n <=? 57)%N then Some (n - 48)%N else None.

Fixpoint parseDigits (s : string) (acc : N) : option N :=
  match s with
  | EmptyString => Some acc
  | String a s' => d ← digitValue a; parseDigits s' (acc * 10 + d)%N
  end.

(** [QString::toUInt(&ok)] on plain decimal numerals: [None] stands for
    [ok == false].  Qt's tolerance for surrounding white space and a
    leading plus sign is not modelled. *)
Definition toUInt (s : string) : option N :=
  if decide (s = "") then None
  else v ← parseDigits s 0; if (v <=? 4294967295)%N then Some v else None.

(** [QString::number(int)] for the non-negative counts used here. *)
Definition number (n : nat) : string := pretty n.

Definition endsWith (suffix s : string) : bool :=
  String.prefix (String.rev suffix) (String.rev s).

(** Case folding, as a case-insensitive comparison applies it: the letters
    A-Z become a-z; the characters outside ASCII are left as they are. *)
Definition foldChar (a : ascii) : ascii :=
  let n := N_of_ascii a in
  if (65 <=? n)%N && (n <=? 90)%N then ascii_of_N (n + 32) else a.

Fixpoint foldCase (s : string) : string :=
  match s with
  | EmptyString => EmptyString
  | String a rest => String (foldChar a) (foldCase rest)
  end.

End QStr.

(** ** Single-precision numbers *)

(** The C++ type [float] as IEEE 754 binary32: the values of the Standard
    Library's [SpecFloat] with a 24-bit significand, every operation rounded
    to nearest, ties to even.  Each [float] operation is rounded on its own
    (no fused multiply-add). *)
Module Float32.

Definition prec : Z := 24.
Definition emax : Z := 128.

(** The value [+0.0f]. *)
Definition zero : spec_float := S754_zero false.

(** An integer, rounded to binary32. *)
Definition ofZ (z : Z) : spec_float := binary_normalize prec emax z 0 false.

Definition mul (x y : spec_float) : spec_float := SFmul prec emax x y.
Definition add (x y : spec_float) : spec_float := SFadd prec emax x y.
Definition div (x y : spec_float) : spec_float := SFdiv prec emax x y.

(** The comparison [x<=y]; it is false when an operand is not a number. *)
Definition leb (x y : spec_float) : bool := SFleb x y.

(** The binary32 value nearest to [n/d], for [n] and [d] that binary32
    holds exactly: the value of a decimal literal such as [0.9f]. *)
Definition ofRatio (n d : Z) : spec_float := div (ofZ n) (ofZ d).

End Float32.

(** ** Files, the environment and the trace *)

(** The numeric postfix expression that the rotation code applies to a file
    name: [fileName.mid(indexOf('_')+1, lastIndexOf('.')-indexOf('_')-1)]. *)
Definition postfix (fileName : string) : string :=
  QStr.mid fileName
    (QStr.indexOf "_"%char fileName + 1)
    (QStr.lastIndexOf "."%char fileName - QStr.indexOf "_"%char fileName - 1).

(** A [QFileInfo] of the directory listing: the name and the size read when
    the entry was listed. *)
Record QFileInfo : Type := mkFileInfo { fileName : string; size : N }.

(** What another thread can do to [m_logBuffer] while a handler call has
    released the buffer lock after its own [enqueue] and [flushBuffer] has
    not yet taken it: a producer enqueues a line, a flush (of the timer or
    of another producer) takes the whole content of the buffer, or a flush
    that failed puts its batch back in front.  The file phase of such a
    flush belongs to the other thread. *)
Inductive Interference : Type :=
  | OtherEnqueue (line : string)
  | OtherFlush
  | OtherRequeue (batch : list string).

(** What the surroundings decide during one call: which file operations
    fail ([open_error] is [QFile::errorString()] of a failed open, and
    [dir_usable] tells whether the directory exists or can be made and is
    readable), which lines other producers enqueue while [flushBuffer] has
    released the buffer lock ([meanwhile]), what other threads do to the
    buffer between the handler's [enqueue] and its call of [flushBuffer]
    ([window]), and the values of the two [float elapsed] variables
    (seconds). *)
Record Env : Type := mkEnv {
  remove_fails : string -> bool;
  rename_fails : string -> string -> bool;
  create_fails : string -> bool;
  open_fails : string -> bool;
  open_error : string;
  dir_usable : bool;
  meanwhile : list string;
  window : list Interference;
  rotate_elapsed : spec_float;
  flush_elapsed : spec_float
}.

(** The observable effects: console output ([qInfo()] and the like),
    [qFatal], the observer [sendLog], the error handler, the timer and the
    handler installation, the successful file operations, and the two
    debug-build diagnostics on [std::cout]. *)
Inductive Event : Type :=
  | EvConsole (type : QtMsgType) (text : string)
  | EvFatal (text : string)
  | EvSendLog (stamp : string) (type : QtMsgType) (category message : string)
  | EvError (msg : string)
  | EvTimerStart
  | EvInstallHandler
  | EvRemove (name : string)
  | EvRename (old new : string)
  | EvTouch (name : string)
  | EvWrite (name data : string)
  | EvSync (name : string)
  | EvRotateDiag (elapsed avg : spec_float)
  | EvFlushDiag (elapsed avg : spec_float).

(** The settings, written by the setters and by [initLogging] before any
    producer thread runs.  [ndebug] is the [NDEBUG] build flag and
    [m_errorHandler] tells whether a handler is installed. *)
Record Config : Type := mkConfig {
  ndebug : bool;
  m_errorHandler : bool;
  m_cleanLogCategory : string;
  m_cleanLogCategoryIsSet : bool;
  m_cleanToFile : bool;
  m_minOutLevel : QtMsgType;
  m_minOutFileLevel : QtMsgType;
  m_logDir : string;
  m_maxLogFiles : N;
  m_maxLogFileSize : N;
  m_logBufferEnabled : bool
}.

(** The mutable statics, the log directory [fs] (file name to content; names
    are told apart by their exact spelling, as on a case-sensitive file
    system) and the trace of effects, oldest first.  [firstTime] is the function-local
    static of [rotateLogFiles]. *)
Record State : Type := mkState {
  cfg : Config;
  m_logFileName : string;
  m_logBuffer : list string;
  m_maxBufferMessages : N;
  m_logBufferFlushTime : spec_float;
  m_logRotationTime : spec_float;
  firstTime : bool;
  fs : gmap string string;
  trace : list Event
}.

Definition set_cfg (c : Config) (s : State) : State :=
  mkState c (m_logFileName s) (m_logBuffer s) (m_maxBufferMessages s)
    (m_logBufferFlushTime s) (m_logRotationTime s) (firstTime s) (fs s) (trace s).
Definition set_logFileName (n : string) (s : State) : State :=
  mkState (cfg s) n (m_logBuffer s) (m_maxBufferMessages s)
    (m_logBufferFlushTime s) (m_logRotationTime s) (firstTime s) (fs s) (trace s).
Definition set_logBuffer (b : list string) (s : State) : State :=
  mkState (cfg s) (m_logFileName s) b (m_maxBufferMessages s)
    (m_logBufferFlushTime s) (m_logRotationTime s) (firstTime s) (fs s) (trace s).
Definition set_maxBufferMessages (n : N) (s : State) : State :=
  mkState (cfg s) (m_logFileName s) (m_logBuffer s) n
    (m_logBufferFlushTime s) (m_logRotationTime s) (firstTime s) (fs s) (trace s).
Definition set_logBufferFlushTime (t : spec_float) (s : State) : State :=
  mkState (cfg s) (m_logFileName s) (m_logBuffer s) (m_maxBufferMessages s)
    t (m_logRotationTime s) (firstTime s) (fs s) (trace s).
Definition set_logRotationTime (t : spec_float) (s : State) : State :=
  mkState (cfg s) (m_logFileName s) (m_logBuffer s) (m_maxBufferMessages s)
    (m_logBufferFlushTime s) t (firstTime s) (fs s) (trace s).
Definition set_firstTime (b : bool) (s : State) : State :=
  mkState (cfg s) (m_logFileName s) (m_logBuffer s) (m_maxBufferMessages s)
    (m_logBufferFlushTime s) (m_logRotationTime s) b (fs s) (trace s).
Definition set_fs (m : gmap string string) (s : State) : State :=
  mkState (cfg s) (m_logFileName s) (m_logBuffer s) (m_maxBufferMessages s)
    (m_logBufferFlushTime s) (m_logRotationTime s) (firstTime s) m (trace s).
Definition emit (e : Event) (s : State) : State :=
  mkState (cfg s) (m_logFileName s) (m_logBuffer s) (m_maxBufferMessages s)
    (m_logBufferFlushTime s) (m_logRotationTime s) (firstTime s) (fs s)
    (trace s ++ [e]).

(** [QCustomLog::callErrorHandler]: the handler runs only when one is set. *)
Definition callErrorHandler (msg : string) (s : State) : State :=
  if m_errorHandler (cfg s) then emit (EvError msg) s else s.

(** Size in bytes of a file's content. *)
Definition contentSize (c : string) : N := N.of_nat (String.length c).

(** [QFile::remove]: fails on a missing file or when the environment says so. *)
Definition fileRemove (env : Env) (name : string) (s : State) : bool * State :=
  match fs s !! name with
  | None => (false, s)
  | Some _ =>
      if remove_fails env name then (false, s)
      else (true, emit (EvRemove name) (set_fs (delete name (fs s)) s))
  end.

(** [QFile::rename]: fails on a missing source, on an existing target (Qt
    never overwrites) or when the environment says so. *)
Definition fileRename (env : Env) (old new : string) (s : State) : bool * State :=
  match fs s !! old, fs s !! new with
  | Some c, None =>
      if rename_fails env old new then (false, s)
      else (true, emit (EvRename old new)
                    (set_fs (<[new := c]> (delete old (fs s))) s))
  | _, _ => (false, s)
  end.

(** The key of the [std::sort] comparator; [toUInt()] yields 0 when the
    conversion fails. *)
Definition postfixNumber (f : QFileInfo) : N :=
  default 0%N (QStr.toUInt (postfix (fileName f))).

Definition postfixLe (a b : QFileInfo) : Prop :=
  (postfixNumber a <= postfixNumber b)%N.

#[global] Instance postfixLe_dec : RelDecision postfixLe.
Proof. intros a b; unfold postfixLe; apply _. Defined.

(** [std::sort] by numeric postfix, ascending.  Entries with the same number
    keep their listing order. *)
Definition sortByPostfix (l : list QFileInfo) : list QFileInfo :=
  merge_sort postfixLe l.

(** ** Rotation: [rotateLogFiles] and [logFileTouch] *)

Section Rotation.

(** [QCoreApplication::applicationName()]. *)
Variable appName : string.

(** The function-local static [mainLogFileName]. *)
Definition mainLogFileName : string := appName +:+ "_0.log".

(** [applicationName()+"_"+QString::number(i)+".log"]. *)
Definition logName (i : nat) : string :=
  appName +:+ "_" +:+ QStr.number i +:+ ".log".

(** The name filter [applicationName()+"_*.log"] of the directory listing.
    [entryInfoList] is called with [QDir::Files] only, without
    [QDir::CaseSensitive], so Qt matches the filter without regard to case.
    The application name is taken literally (it holds no wildcard
    character): the names selected are those that start with [appName_]
    and end with [.log], letters compared after case folding. *)
Definition matchesPattern (name : string) : bool :=
  String.prefix (QStr.foldCase (appName +:+ "_")) (QStr.foldCase name)
  && QStr.endsWith ".log" (QStr.foldCase name)
  && (String.length appName + 5 <=? String.length name)%nat.

(** [m_logDir.entryInfoList({pattern}, QDir::Files)], listed by name. *)
Definition entryInfoList (dir : gmap string string) : list QFileInfo :=
  (fun e : string * string => mkFileInfo e.1 (contentSize e.2)) <$>
  merge_sort (fun a b : string * string => String.le a.1 b.1)
    (filter (fun e : string * string => Is_true (matchesPattern e.1))
       (map_to_list dir)).

(** The texts that the rotation passes to the error handler. *)
Definition creationError (name : string) : string :=
  "Log file " +:+ QStr.dquote +:+ name +:+ QStr.dquote +:+ " creation error".
Definition renamingError (name : string) : string :=
  "Log file " +:+ QStr.dquote +:+ name +:+ QStr.dquote +:+ " renaming error".
Definition deletionError (name : string) : string :=
  "Log file " +:+ QStr.dquote +:+ name +:+ QStr.dquote +:+ " deletion error".
Definition unknownDeletionError (name : string) : string :=
  "Unknown log file " +:+ QStr.dquote +:+ name +:+ QStr.dquote +:+ " deletion error".

(** [QCustomLog::logFileTouch]: truncate-create, then close. *)
Definition logFileTouch (env : Env) (name : string) (s : State) : bool * State :=
  if create_fails env name then (false, callErrorHandler (creationError name) s)
  else (true, emit (EvTouch name) (set_fs (<[name := ""]> (fs s)) s)).

(** The loop "filter non-number postfixes": it runs from the last entry to
    the first, so the tail is handled before the head. *)
Fixpoint dropNonNumeric (env : Env) (l : list QFileInfo) (s : State)
  : list QFileInfo * State :=
  match l with
  | [] => ([], s)
  | f :: l' =>
      let '(kept, s1) := dropNonNumeric env l' s in
      match QStr.toUInt (postfix (fileName f)) with
      | Some _ => (f :: kept, s1)
      | None =>
          let '(ok, s2) := fileRemove env (fileName f) s1 in
          (kept,
           if ok then s2
           else callErrorHandler (unknownDeletionError (fileName f)) s2)
      end
  end.

(** One [QFile::remove(fileList.last()...)] followed by [removeLast()]. *)
Definition removeLastFile (env : Env) (l : list QFileInfo) (s : State)
  : list QFileInfo * State :=
  match last l with
  | None => (l, s)
  | Some f =>
      let '(ok, s1) := fileRemove env (fileName f) s in
      (removelast l,
       if ok then s1
       else callErrorHandler (deletionError (fileName f)) s1)
  end.

(** [while(fileList.count()>m_maxLogFiles)]: every round shortens the list,
    so a fuel equal to its length is never exhausted. *)
Fixpoint removeRedundant (env : Env) (fuel : nat) (l : list QFileInfo) (s : State)
  : list QFileInfo * State :=
  match fuel with
  | O => (l, s)
  | S fuel' =>
      if (m_maxLogFiles (cfg s) <? N.of_nat (length l))%N then
        let '(l', s') := removeLastFile env l s in
        removeRedundant env fuel' l' s'
      else (l, s)
  end.

(** "check for obstacles to linear renaming": is the name with the number
    [fileList.count()] already taken by a listed file? *)
Definition obstacleFound (l : list QFileInfo) : bool :=
  existsb (fun f => bool_decide (fileName f = logName (length l))) l.

(** "temporary rename to avoid names obstacles", first entry first. *)
Fixpoint tempRename (env : Env) (l : list QFileInfo) (s : State)
  : list QFileInfo * State :=
  match l with
  | [] => ([], s)
  | f :: l' =>
      let '(ok, s1) := fileRename env (fileName f) (fileName f +:+ ".temp") s in
      let f' := if ok then mkFileInfo (fileName f +:+ ".temp") (size f) else f in
      let s2 :=
        if ok then s1
        else callErrorHandler (renamingError (fileName f)) s1 in
      let '(r, s3) := tempRename env l' s2 in
      (f' :: r, s3)
  end.

(** "linear rename": the entry at position [i] goes to the name with number
    [i+1]; the loop runs from the last position down to 0. *)
Fixpoint linearRename (env : Env) (i : nat) (l : list QFileInfo) (s : State)
  : list QFileInfo * State :=
  match l with
  | [] => ([], s)
  | f :: l' =>
      let '(r, s1) := linearRename env (S i) l' s in
      if decide (fileName f = logName (S i)) then (f :: r, s1)
      else
        let '(ok, s2) := fileRename env (fileName f) (logName (S i)) s1 in
        if ok then (mkFileInfo (logName (S i)) (size f) :: r, s2)
        else (f :: r, callErrorHandler (renamingError (fileName f)) s2)
  end.

(** "create empty main log file", in both places it occurs:
    [if(!logFileTouch(mainLogFileName)) { logFileName=mainLogFileName; return false; }]. *)
Definition createMainFile (env : Env) (s : State) : bool * State :=
  let '(ok, s1) := logFileTouch env mainLogFileName s in
  if ok then (true, s1) else (false, set_logFileName mainLogFileName s1).

(** The branch "new file is needed": make room, rename, create the main file. *)
Definition makeNewFile (env : Env) (l : list QFileInfo) (s : State) : bool * State :=
  let '(l1, s1) :=
    if (m_maxLogFiles (cfg s) <=? N.of_nat (length l))%N
    then removeLastFile env l s else (l, s) in
  let '(l2, s2) := if obstacleFound l1 then tempRename env l1 s1 else (l1, s1) in
  let '(_, s3) := linearRename env 0 l2 s2 in
  createMainFile env s3.

(** The body of [if(logFileName.isEmpty())]: scan the directory and rotate.
    [false] is the early [return false].  The list can only be empty after
    the trimming loop when [m_maxLogFiles] is 0, which no setter allows and
    where the C++ [first()] is undefined. *)
Definition scanAndRotate (env : Env) (s : State) : bool * State :=
  let '(l0, s0) := dropNonNumeric env (entryInfoList (fs s)) s in
  match sortByPostfix l0 with
  | [] => createMainFile env s0
  | f0 :: rest =>
      let '(l1, s1) := removeRedundant env (length (f0 :: rest)) (f0 :: rest) s0 in
      match l1 with
      | [] => (true, s1)
      | first :: _ =>
          if (m_maxLogFileSize (cfg s1) <=? size first)%N
             || negb (bool_decide (fileName first = mainLogFileName))
          then makeNewFile env l1 s1
          else (true, s1)
      end
  end.

(** The update shared by both trackers,
    [if(avg<=+0.0f) avg=elapsed; else avg=(avg*keep)+(elapsed*alpha)],
    in single precision: [keep] and [alpha] are the two literals of each
    call site (0.9f and 0.1f for the flush, 0.8f and 0.2f for the rotation). *)
Definition emaStep (keep alpha avg elapsed : spec_float) : spec_float :=
  if Float32.leb avg Float32.zero then elapsed
  else Float32.add (Float32.mul avg keep) (Float32.mul elapsed alpha).

(** "check existing log file size": the name survives only when it is the
    main name and that file exists and is below the size limit. *)
Definition checkCurrentName (s : State) : string :=
  if decide (m_logFileName s = "") then ""
  else if decide (m_logFileName s = mainLogFileName) then
    match fs s !! m_logFileName s with
    | None => ""
    | Some c =>
        if (m_maxLogFileSize (cfg s) <=? contentSize c)%N then ""
        else m_logFileName s
    end
  else "".

(** The tail of [rotateLogFiles] after the scan: telemetry (the first call
    is skipped), the debug-build diagnostic, and the result name. *)
Definition rotateFinish (env : Env) (s : State) : State :=
  let elapsed := rotate_elapsed env in
  let avg :=
    if firstTime s then m_logRotationTime s
    else emaStep (Float32.ofRatio 8 10) (Float32.ofRatio 2 10)
           (m_logRotationTime s) elapsed in
  let s1 := if firstTime s then s else set_logRotationTime avg s in
  let s2 :=
    if negb (ndebug (cfg s1))
       && bool_decide (m_minOutLevel (cfg s1) = QtDebugMsg)
       && negb (m_cleanLogCategoryIsSet (cfg s1))
       && negb (firstTime s1)
    then emit (EvRotateDiag elapsed avg) s1 else s1 in
  set_logFileName mainLogFileName (set_firstTime false s2).

(** [QCustomLog::rotateLogFiles(m_logFileName)]: both callers pass the
    static [m_logFileName], so the in-out parameter is that field. *)
Definition rotateLogFiles (env : Env) (s : State) : bool * State :=
  if decide (m_logDir (cfg s) = "") then
    (false, callErrorHandler "Log directory is not set" s)
  else
    let s1 := set_logFileName (checkCurrentName s) s in
    let '(ok, s2) :=
      if decide (m_logFileName s1 = "") then scanAndRotate env s1 else (true, s1) in
    if ok then (true, rotateFinish env s2) else (false, s2).

End Rotation.

(** ** The writer: [flushBuffer] *)

Section Logger.

Variable appName : string.

(** [m_logBuffer.enqueue(line)] under the buffer lock. *)
Definition enqueue (line : string) (s : State) : State :=
  set_logBuffer (m_logBuffer s ++ [line]) s.

(** The failure path shared by the rotation and the open error:
    [doubleBuffer.append(m_logBuffer); m_logBuffer=doubleBuffer]. *)
Definition requeue (doubleBuffer : list string) (s : State) : State :=
  set_logBuffer (doubleBuffer ++ m_logBuffer s) s.

(** [while(!doubleBuffer.isEmpty()) logFile.write(dequeue().toUtf8()+'\n')]
    on a file opened for appending; lines are byte strings already. *)
Fixpoint writeLines (name : string) (lines : list string) (s : State) : State :=
  match lines with
  | [] => s
  | line :: rest =>
      let data := line +:+ QStr.newline in
      writeLines name rest
        (emit (EvWrite name data)
           (set_fs (<[name := default "" (fs s !! name) +:+ data]> (fs s)) s))
  end.

(** Opening with [WriteOnly|Append] creates a missing file. *)
Definition openAppend (name : string) (s : State) : State :=
  match fs s !! name with
  | Some _ => s
  | None => set_fs (<[name := ""]> (fs s)) s
  end.

(** The flush telemetry: EMA with alpha 0.1 and the debug-build diagnostic. *)
Definition flushFinish (env : Env) (s : State) : State :=
  let elapsed := flush_elapsed env in
  let avg := emaStep (Float32.ofRatio 9 10) (Float32.ofRatio 1 10)
               (m_logBufferFlushTime s) elapsed in
  let s1 := set_logBufferFlushTime avg s in
  if negb (ndebug (cfg s1))
     && bool_decide (m_minOutLevel (cfg s1) = QtDebugMsg)
     && negb (m_cleanLogCategoryIsSet (cfg s1))
  then emit (EvFlushDiag elapsed avg) s1 else s1.

(** The C++ function returns [void]; the marker tells which of its four
    [return] points was reached. *)
Inductive FlushReturn : Type :=
  | FlushNothing
  | FlushRotateFailed
  | FlushOpenFailed
  | FlushWritten.

(** [QCustomLog::flushBuffer(force)].  After the drain the buffer lock is
    released; the lines that other producers enqueue from then on are
    [meanwhile env]. *)
Definition flushBuffer (force : bool) (env : Env) (s : State)
  : FlushReturn * State :=
  let s0 := if m_logBufferEnabled (cfg s) then emit EvTimerStart s else s in
  match m_logBuffer s0 with
  | [] => (FlushNothing, s0)
  | _ :: _ =>
      let count := N.of_nat (length (m_logBuffer s0)) in
      let s1 :=
        if m_logBufferEnabled (cfg s0) && (m_maxBufferMessages s0 <? count)%N
        then set_maxBufferMessages count s0 else s0 in
      let doubleBuffer := m_logBuffer s1 in
      let s2 := set_logBuffer (meanwhile env) s1 in
      let '(ok, s3) := rotateLogFiles appName env s2 in
      if negb ok then (FlushRotateFailed, requeue doubleBuffer s3)
      else if open_fails env (m_logFileName s3) then
        (FlushOpenFailed,
         requeue doubleBuffer
          (callErrorHandler
             ("Log file " +:+ QStr.dquote +:+ m_logFileName s3 +:+ QStr.dquote
              +:+ " open error: " +:+ open_error env) s3))
      else
        let s4 := writeLines (m_logFileName s3) doubleBuffer
                    (openAppend (m_logFileName s3) s3) in
        let s5 := if force then emit (EvSync (m_logFileName s3)) s4 else s4 in
        (FlushWritten, flushFinish env s5)
  end.

(** What the buffer loses to a flush of another thread: the head of
    [flushBuffer], up to [m_logBuffer.clear()], run by that thread. *)
Definition otherFlush (s : State) : State :=
  match m_logBuffer s with
  | [] => s
  | _ :: _ =>
      let count := N.of_nat (length (m_logBuffer s)) in
      set_logBuffer []
        (if m_logBufferEnabled (cfg s) && (m_maxBufferMessages s <? count)%N
         then set_maxBufferMessages count s else s)
  end.

Definition interfere (s : State) (a : Interference) : State :=
  match a with
  | OtherEnqueue line => enqueue line s
  | OtherFlush => otherFlush s
  | OtherRequeue batch => requeue batch s
  end.

(** The handler's
    [lock(); m_logBuffer.enqueue(line); unlock(); flushBuffer(force);]:
    the buffer lock is free between the [unlock()] and the [lock()] inside
    [flushBuffer], and [window env] tells what other threads do to the
    buffer in between. *)
Definition enqueueThenFlush (force : bool) (env : Env) (line : string) (s : State)
  : State :=
  (flushBuffer force env (foldl interfere (enqueue line s) (window env))).2.

(** ** The producer side: [messageHandler] *)

(** One call of the handler: the level, [context.category], the text [msg],
    the text ["file: func: msg"] that the Debug branch builds from the
    context, and the time stamp already rendered with [m_logMessageFormat]. *)
Record LogMessage : Type := mkLogMessage {
  lm_type : QtMsgType;
  lm_category : string;
  lm_msg : string;
  lm_debugText : string;
  lm_stamp : string
}.

Definition levelTag (t : QtMsgType) : string :=
  match t with
  | QtInfoMsg => " [INF] ["
  | QtWarningMsg => " [WRN] ["
  | QtCriticalMsg => " [CRT] ["
  | QtFatalMsg => " [FTL] ["
  | QtDebugMsg => " [DBG] ["
  end.

Definition message (r : LogMessage) : string :=
  if decide (lm_type r = QtDebugMsg) then lm_debugText r else lm_msg r.

Definition formattedMessage (r : LogMessage) : string :=
  lm_stamp r +:+ levelTag (lm_type r) +:+ lm_category r +:+ "] " +:+ message r.

(** The console decoration of each level; Info is printed plain. *)
Definition colored (t : QtMsgType) (text : string) : string :=
  match t with
  | QtInfoMsg => text
  | QtWarningMsg => QStr.esc +:+ "[33m" +:+ text +:+ QStr.esc +:+ "[0m"
  | QtCriticalMsg => QStr.esc +:+ "[31m" +:+ text +:+ QStr.esc +:+ "[0m"
  | QtFatalMsg => QStr.esc +:+ "[35m" +:+ text +:+ QStr.esc +:+ "[0m"
  | QtDebugMsg => QStr.esc +:+ "[90m" +:+ text +:+ QStr.esc +:+ "[0m"
  end.

(** The guard "must not write or transmit potentially sensitive information
    when prohibited":
    [m_cleanLogCategory.isEmpty() || category!=m_cleanLogCategory || m_cleanToFile]. *)
Definition mayPersist (c : Config) (category : string) : bool :=
  bool_decide (m_cleanLogCategory c = "")
  || negb (bool_decide (category = m_cleanLogCategory c))
  || m_cleanToFile c.

(** The console output of the four non-fatal arms of the switch. *)
Definition consoleOut (r : LogMessage) (s : State) : State :=
  if decide (m_cleanLogCategory (cfg s) = "") then
    if levelGreaterOrEqual (lm_type r) (m_minOutLevel (cfg s))
    then emit (EvConsole (lm_type r) (colored (lm_type r) (formattedMessage r))) s
    else s
  else if decide (lm_category r = m_cleanLogCategory (cfg s))
  then emit (EvConsole (lm_type r) (lm_msg r)) s
  else s.

Definition sendLog (r : LogMessage) (s : State) : State :=
  emit (EvSendLog (lm_stamp r) (lm_type r) (lm_category r) (message r)) s.

(** The [QtFatalMsg] arm: persist when allowed, then [qFatal], which ends
    the process; [EvFatal] is therefore the last event of the call. *)
Definition handleFatal (env : Env) (r : LogMessage) (s : State) : State :=
  let s1 :=
    if mayPersist (cfg s) (lm_category r)
    then sendLog r (enqueueThenFlush true env (formattedMessage r) s)
    else s in
  emit (EvFatal (if decide (m_cleanLogCategory (cfg s1) = "")
                 then colored QtFatalMsg (formattedMessage r)
                 else "[FTL] " +:+ lm_msg r)) s1.

(** The part after the switch, for the non-fatal levels. *)
Definition persist (env : Env) (r : LogMessage) (s : State) : State :=
  if mayPersist (cfg s) (lm_category r) then
    let s1 :=
      if levelGreaterOrEqual (lm_type r) (m_minOutFileLevel (cfg s)) then
        if decide (lm_type r = QtCriticalMsg)
        then enqueueThenFlush true env (formattedMessage r) s
        else if negb (m_logBufferEnabled (cfg s))
        then enqueueThenFlush false env (formattedMessage r) s
        else enqueue (formattedMessage r) s
      else s in
    sendLog r s1
  else s.

(** [QCustomLog::messageHandler]. *)
Definition messageHandler (env : Env) (r : LogMessage) (s : State) : State :=
  if ndebug (cfg s) && bool_decide (lm_type r = QtDebugMsg) then s
  else if decide (lm_type r = QtFatalMsg) then handleFatal env r s
  else persist env r (consoleOut r s).

(** ** Configuration and [initLogging] *)

Definition setMinLevels (outLevel fileLevel : QtMsgType) (s : State) : State :=
  let c := cfg s in
  set_cfg (mkConfig (ndebug c) (m_errorHandler c) (m_cleanLogCategory c)
             (m_cleanLogCategoryIsSet c) (m_cleanToFile c) outLevel fileLevel
             (m_logDir c) (m_maxLogFiles c) (m_maxLogFileSize c)
             (m_logBufferEnabled c)) s.

Definition setCleanLogCategory (category : string) (writeToFile : bool) (s : State)
  : State :=
  let c := cfg s in
  set_cfg (mkConfig (ndebug c) (m_errorHandler c) category
             (negb (bool_decide (category = ""))) writeToFile
             (m_minOutLevel c) (m_minOutFileLevel c)
             (m_logDir c) (m_maxLogFiles c) (m_maxLogFileSize c)
             (m_logBufferEnabled c)) s.

Definition set_logDir (dir : string) (s : State) : State :=
  let c := cfg s in
  set_cfg (mkConfig (ndebug c) (m_errorHandler c) (m_cleanLogCategory c)
             (m_cleanLogCategoryIsSet c) (m_cleanToFile c)
             (m_minOutLevel c) (m_minOutFileLevel c)
             dir (m_maxLogFiles c) (m_maxLogFileSize c)
             (m_logBufferEnabled c)) s.

Definition set_limits (maxFiles maxFileSize : N) (s : State) : State :=
  let c := cfg s in
  set_cfg (mkConfig (ndebug c) (m_errorHandler c) (m_cleanLogCategory c)
             (m_cleanLogCategoryIsSet c) (m_cleanToFile c)
             (m_minOutLevel c) (m_minOutFileLevel c)
             (m_logDir c) maxFiles maxFileSize
             (m_logBufferEnabled c)) s.

Definition set_logBufferEnabled (b : bool) (s : State) : State :=
  let c := cfg s in
  set_cfg (mkConfig (ndebug c) (m_errorHandler c) (m_cleanLogCategory c)
             (m_cleanLogCategoryIsSet c) (m_cleanToFile c)
             (m_minOutLevel c) (m_minOutFileLevel c)
             (m_logDir c) (m_maxLogFiles c) (m_maxLogFileSize c) b) s.

(** [QCustomLog::normalizePath]: backslashes become slashes, runs of
    slashes collapse, and the path ends with a slash. *)
Fixpoint collapseSlashes (path : string) : string :=
  match path with
  | EmptyString => ""
  | String a rest =>
      let a' := if decide (a = "\"%char) then "/"%char else a in
      match collapseSlashes rest with
      | String b t =>
          if decide (a' = "/"%char /\ b = "/"%char) then String b t
          else String a' (String b t)
      | EmptyString => String a' ""
      end
  end.

Definition normalizePath (path : string) : string :=
  let p := collapseSlashes path in
  if QStr.endsWith "/" p then p else p +:+ "/".

(** [QCustomLog::ensureDirectoryWritable]: the probe file [test.tmp] is
    created and removed in the directory. *)
Definition ensureDirectoryWritable (env : Env) (s : State) : bool * State :=
  if negb (dir_usable env) then (false, s)
  else
    let '(ok1, s1) :=
      match fs s !! "test.tmp" with
      | Some _ => fileRemove env "test.tmp" s
      | None => (true, s)
      end in
    if negb ok1 then (false, s1)
    else if create_fails env "test.tmp" then (false, s1)
    else fileRemove env "test.tmp"
           (emit (EvTouch "test.tmp") (set_fs (<["test.tmp" := ""]> (fs s1)) s1)).

(** [QCoreApplication::applicationDirPath()]. *)
Variable appDirPath : string.

(** [QCustomLog::initLogging]; [fs] is the content of the directory that
    [logDir] designates.  The rotation runs before the two limits are
    stored. *)
Definition initLogging (env : Env) (logDir : string)
    (flushTime maxFiles maxFileSize : N) (s : State) : bool * State :=
  let dir := if decide (logDir = "") then appDirPath +:+ "/"
             else normalizePath logDir in
  let '(writable, s0) := ensureDirectoryWritable env s in
  if negb writable then
    (false, callErrorHandler "Log directory is not writable" s0)
  else
    let s1 := set_logDir dir s0 in
    let '(ok, s2) := rotateLogFiles appName env s1 in
    if negb ok then (false, s2)
    else
      let s3 := set_limits (if (maxFiles <? 2)%N then 2%N else maxFiles)
                  (if (maxFileSize <? 100 * 1024)%N then (100 * 1024)%N
                   else maxFileSize) s2 in
      let s4 := set_logBufferEnabled (1000 <=? flushTime)%N s3 in
      let s5 := emit EvInstallHandler s4 in
      (true, if m_logBufferEnabled (cfg s5) then emit EvTimerStart s5 else s5).

End Logger.

(** ** What a rotation pass leaves alone *)

(** The events a rotation pass can add to the trace. *)
Definition rotationEvent (e : Event) : bool :=
  match e with
  | EvError _ | EvRemove _ | EvRename _ _ | EvTouch _ | EvRotateDiag _ _ => true
  | _ => false
  end.

(** [RotFrame s s']: from [s] to [s'] only the directory, the current file
    name and the rotation telemetry changed, and only rotation events were
    appended to the trace. *)
Record RotFrame (s s' : State) : Prop := mkRotFrame {
  rf_cfg : cfg s' = cfg s;
  rf_buffer : m_logBuffer s' = m_logBuffer s;
  rf_maxBuffer : m_maxBufferMessages s' = m_maxBufferMessages s;
  rf_flushTime : m_logBufferFlushTime s' = m_logBufferFlushTime s;
  rf_trace : exists evs,
      trace s' = trace s ++ evs /\ forallb rotationEvent evs = true
}.

(** The lines written by a flush, as one byte string. *)
Fixpoint joinLines (lines : list string) : string :=
  match lines with
  | [] => ""
  | line :: rest => line +:+ QStr.newline +:+ joinLines rest
  end.

(** The [EvWrite] events of a trace, in order. *)
Definition writesOf (tr : list Event) : list (string * string) :=
  omap (fun e => match e with EvWrite n d => Some (n, d) | _ => None end) tr.

(** The [EvSendLog] events of a trace, in order. *)
Definition sendLogsOf (tr : list Event)
  : list (string * QtMsgType * string * string) :=
  omap (fun e => match e with
                 | EvSendLog st t c m => Some (st, t, c, m)
                 | _ => None
                 end) tr.

(** The [EvSync] events of a trace: the explicit [logFile.flush()] calls. *)
Definition syncsOf (tr : list Event) : list string :=
  omap (fun e => match e with EvSync n => Some n | _ => None end) tr.

(** What [flushBuffer] emits on entry: the queued timer restart. *)
Definition timerEvents (s : State) : list Event :=
  if m_logBufferEnabled (cfg s) then [EvTimerStart] else [].

(** [enqueue] applied to each line in turn. *)
Definition enqueueAll (lines : list string) (s : State) : State :=
  foldl (fun st line => enqueue line st) s lines.

(** The write events of a batch. *)
Definition writeEvents (name : string) (lines : list string) : list Event :=
  (fun line => EvWrite name (line +:+ QStr.newline)) <$> lines.

(** What each of the four return points of [flushBuffer] leaves behind. *)
Definition flushEffect (appName : string) (force : bool) (env : Env) (s : State)
    (r : FlushReturn) (s' : State) : Prop :=
  match r with
  | FlushNothing =>
      m_logBuffer s = [] /\ m_logBuffer s' = [] /\ fs s' = fs s
      /\ trace s' = trace s ++ timerEvents s
  | FlushRotateFailed | FlushOpenFailed =>
      m_logBuffer s <> []
      /\ m_logBuffer s' = m_logBuffer s ++ meanwhile env
      /\ (exists evs,
            trace s' = trace s ++ timerEvents s ++ evs
            /\ forallb rotationEvent evs = true)
      /\ match r with
         | FlushRotateFailed =>
             m_logDir (cfg s) = "" \/ create_fails env (mainLogFileName appName) = true
         | _ => open_fails env (mainLogFileName appName) = true
         end
  | FlushWritten =>
      m_logBuffer s <> []
      /\ m_logBuffer s' = meanwhile env
      /\ m_logFileName s' = (mainLogFileName appName)
      /\ (exists base,
            fs s' !! mainLogFileName appName
            = Some (base +:+ joinLines (m_logBuffer s)))
      /\ exists evs diag,
          trace s' = trace s ++ timerEvents s ++ evs
                     ++ writeEvents (mainLogFileName appName) (m_logBuffer s)
                     ++ (if force then [EvSync (mainLogFileName appName)] else [])
                     ++ diag
          /\ forallb rotationEvent evs = true
          /\ (diag = [] \/ exists e a, diag = [EvFlushDiag e a])
  end.

(** ** Sample inputs *)

(** An environment in which nothing fails and no other thread runs. *)
Definition quietEnv : Env :=
  mkEnv (fun _ => false) (fun _ _ => false) (fun _ => false) (fun _ => false)
    "" true [] [] (Float32.ofRatio 1 100) (Float32.ofRatio 2 100).


(** Nothing fails; the flush of another thread takes the buffer between
    the handler's enqueue and its flush. *)
Definition racingEnv : Env :=
  mkEnv (fun _ => false) (fun _ _ => false) (fun _ => false) (fun _ => false)
    "" true [] [OtherFlush] (Float32.ofRatio 1 100) (Float32.ofRatio 2 100).

(** An environment in which no file can be created; meanwhile another
    producer enqueues one line. *)
Definition readOnlyEnv : Env :=
  mkEnv (fun _ => false) (fun _ _ => false) (fun _ => true) (fun _ => false)
    "" true ["m"] [] (Float32.ofRatio 1 100) (Float32.ofRatio 2 100).

(** The member initialisers of [qcustomlog.h], in a debug build with an
    error handler installed; a default-constructed [QDir] has the path ".". *)
Definition defaultConfig : Config :=
  mkConfig false true "" false true QtDebugMsg QtDebugMsg "." 10
    (10 * 1024 * 1024) false.

(** The statics before [initLogging], over a given directory content. *)
Definition initialState (dir : gmap string string) : State :=
  mkState defaultConfig "" [] 0 Float32.zero Float32.zero true dir [].

(** The same with the log directory set, as after [initLogging]. *)
Definition readyState (dir : gmap string string) : State :=
  set_logDir "/var/log/" (initialState dir).

(** A state in which the clean log category is "CI" and clean-category
    messages must not reach the file ([writeToFile] false). *)
Definition cleanState : State :=
  setCleanLogCategory "CI" false (readyState ∅).

(** A release build ([NDEBUG] defined) with everything else as in
    [readyState]. *)
Definition releaseState : State :=
  set_cfg (mkConfig true true "" false true QtDebugMsg QtDebugMsg "/var/log/" 10
             (10 * 1024 * 1024) false) (initialState ∅).

Definition fatalCI : LogMessage :=
  mkLogMessage QtFatalMsg "CI" "boom" "main.cpp: run(): boom" "[12:00:00.000]".

Definition infoNote : LogMessage :=
  mkLogMessage QtInfoMsg "net" "up" "main.cpp: run(): up" "[12:00:00.000]".

Definition debugNote : LogMessage :=
  mkLogMessage QtDebugMsg "net" "probe" "main.cpp: run(): probe" "[12:00:00.000]".

Definition fatalNet : LogMessage :=
  mkLogMessage QtFatalMsg "net" "down" "main.cpp: run(): down" "[12:00:00.000]".

(** Five small log files left by an earlier run with the default limit. *)
Definition crowdedDir : gmap string string :=
  list_to_map [("app_0.log", "a"); ("app_1.log", "b"); ("app_2.log", "c");
               ("app_3.log", "d"); ("app_4.log", "e")].

(** Three log files with gaps in their numbering and no main file. *)
Definition gappedDir : gmap string string :=
  list_to_map [("app_2.log", "a"); ("app_4.log", "b"); ("app_6.log", "c")].

(** Flush durations of 0, 1 and 2 seconds. *)
Definition envElapsed (seconds : spec_float) : Env :=
  mkEnv (fun _ => false) (fun _ _ => false) (fun _ => false) (fun _ => false)
    "" true [] [] Float32.zero seconds.

(** A rotation pass that takes the given time, nothing failing. *)
Definition envRotationElapsed (seconds : spec_float) : Env :=
  mkEnv (fun _ => false) (fun _ _ => false) (fun _ => false) (fun _ => false)
    "" true [] [] seconds Float32.zero.

(** [QCustomLog::averageBufferFlushTime]. *)
Definition averageBufferFlushTime (s : State) : spec_float := m_logBufferFlushTime s.

(** ** Definitions for the further properties *)

(** A line as it is written: followed by the line terminator. *)
Definition terminated (line : string) : string := line +:+ QStr.newline.

(** The data of the [EvWrite] events of a trace, in order. *)
Definition written (tr : list Event) : list string := snd <$> writesOf tr.

(** The lines that other producers add during a flush: a flush that finds
    the buffer empty returns before it releases the buffer lock for the
    file phase. *)
Definition arrivals (env : Env) (s : State) : list string :=
  match m_logBuffer s with
  | [] => []
  | _ :: _ => meanwhile env
  end.

(** A run of rounds; in each round the given lines are enqueued and a flush
    is attempted.  The second component collects, in order, every line that
    reached the buffer during the run. *)
Fixpoint runRounds (appName : string) (rounds : list (list string * bool * Env))
    (s : State) : State * list string :=
  match rounds with
  | [] => (s, [])
  | (lines, force, env) :: rest =>
      let s1 := enqueueAll lines s in
      let '(s', later) := runRounds appName rest (flushBuffer appName force env s1).2 in
      (s', lines ++ arrivals env s1 ++ later)
  end.

(** Whether [messageHandler] puts the record into the buffer. *)
Definition enqueues (c : Config) (r : LogMessage) : bool :=
  negb (ndebug c && bool_decide (lm_type r = QtDebugMsg))
  && mayPersist c (lm_category r)
  && (bool_decide (lm_type r = QtFatalMsg)
      || levelGreaterOrEqual (lm_type r) (m_minOutFileLevel c)).

(** The two steps of [normalizePath], one after the other:
    [path.replace('\\','/')] and [path.replace(QRegularExpression("\\/{2,}"),"/")]. *)
Fixpoint replaceBackslashes (path : string) : string :=
  match path with
  | EmptyString => ""
  | String a rest =>
      String (if decide (a = "\"%char) then "/"%char else a) (replaceBackslashes rest)
  end.

Fixpoint collapseRuns (path : string) : string :=
  match path with
  | EmptyString => ""
  | String a rest =>
      match collapseRuns rest with
      | String b t =>
          if decide (a = "/"%char /\ b = "/"%char) then String b t
          else String a (String b t)
      | EmptyString => String a ""
      end
  end.

Fixpoint hasBackslash (path : string) : bool :=
  match path with
  | EmptyString => false
  | String a rest => bool_decide (a = "\"%char) || hasBackslash rest
  end.

Fixpoint hasDoubleSlash (path : string) : bool :=
  match path with
  | String a (String b _ as rest) =>
      (bool_decide (a = "/"%char) && bool_decide (b = "/"%char)) || hasDoubleSlash rest
  | _ => false
  end.

Fixpoint lastChar (s : string) : option ascii :=
  match s with
  | EmptyString => None
  | String a EmptyString => Some a
  | String _ rest => lastChar rest
  end.

Definition firstChar (s : string) : option ascii :=
  match s with
  | EmptyString => None
  | String a _ => Some a
  end.

(** The events of the directory scan: error callbacks and file operations. *)
Definition fileEvent (e : Event) : bool :=
  match e with
  | EvError _ | EvRemove _ | EvRename _ _ | EvTouch _ => true
  | _ => false
  end.

(** [ScanFrame s s']: from [s] to [s'] only the directory and the current
    file name changed, and only file events were appended to the trace. *)
Record ScanFrame (s s' : State) : Prop := mkScanFrame {
  sf_cfg : cfg s' = cfg s;
  sf_buffer : m_logBuffer s' = m_logBuffer s;
  sf_maxBuffer : m_maxBufferMessages s' = m_maxBufferMessages s;
  sf_flushTime : m_logBufferFlushTime s' = m_logBufferFlushTime s;
  sf_rotationTime : m_logRotationTime s' = m_logRotationTime s;
  sf_firstTime : firstTime s' = firstTime s;
  sf_trace : exists evs,
      trace s' = trace s ++ evs /\ forallb fileEvent evs = true
}.



(** The file names of a directory listing. *)
Definition names (l : list QFileInfo) : list string := fileName <$> l.


(** * Properties *)

(** ** Frame lemmas for the rotation *)

#[global] Instance RotFrame_refl : Reflexive RotFrame.
Proof.
  intros s; split; try reflexivity.
  exists []; split; [by rewrite app_nil_r | done].
Qed.

#[global] Instance RotFrame_trans : Transitive RotFrame.
Proof.
  intros s1 s2 s3 [c1 b1 m1 t1 (e1 & E1 & F1)] [c2 b2 m2 t2 (e2 & E2 & F2)].
  split; try congruence.
  exists (e1 ++ e2); split.
  - by rewrite E2, E1, app_assoc.
  - rewrite forallb_app, F1, F2; done.
Qed.

Lemma frame_emit e s : rotationEvent e = true -> RotFrame s (emit e s).
Proof.
  intros He; split; try reflexivity.
  exists [e]; split; [done | by cbn; rewrite He].
Qed.

Lemma frame_set_fs m s : RotFrame s (set_fs m s).
Proof.
  split; try reflexivity. exists []; split; [by cbn; rewrite app_nil_r | done].
Qed.

Lemma frame_set_logFileName n s : RotFrame s (set_logFileName n s).
Proof.
  split; try reflexivity. exists []; split; [by cbn; rewrite app_nil_r | done].
Qed.

Lemma frame_set_firstTime b s : RotFrame s (set_firstTime b s).
Proof.
  split; try reflexivity. exists []; split; [by cbn; rewrite app_nil_r | done].
Qed.

Lemma frame_set_logRotationTime t s : RotFrame s (set_logRotationTime t s).
Proof.
  split; try reflexivity. exists []; split; [by cbn; rewrite app_nil_r | done].
Qed.

Lemma frame_callErrorHandler msg s : RotFrame s (callErrorHandler msg s).
Proof.
  unfold callErrorHandler. destruct (m_errorHandler (cfg s)); [|reflexivity].
  by apply frame_emit.
Qed.

Lemma frame_fileRemove env name s : RotFrame s (fileRemove env name s).2.
Proof.
  unfold fileRemove. destruct (fs s !! name); [|reflexivity].
  destruct (remove_fails env name); cbn; [reflexivity|].
  etrans; [apply frame_set_fs | by apply frame_emit].
Qed.

Lemma frame_fileRename env old new s : RotFrame s (fileRename env old new s).2.
Proof.
  unfold fileRename.
  destruct (fs s !! old); [|reflexivity].
  destruct (fs s !! new); [reflexivity|].
  destruct (rename_fails env old new); cbn; [reflexivity|].
  etrans; [apply frame_set_fs | by apply frame_emit].
Qed.

Create HintDb frame.

#[global] Hint Resolve frame_callErrorHandler frame_fileRemove frame_fileRename
  frame_set_fs frame_set_logFileName frame_set_firstTime
  frame_set_logRotationTime : frame.

(** Splits the pair returned by a call on which a frame fact [H] is known. *)
Ltac frame_call H :=
  let ok := fresh "ok" in
  let st := fresh "st" in
  let E := fresh "E" in
  match type of H with
  | RotFrame _ (?call).2 =>
      destruct call as [ok st] eqn:E; cbn [fst snd] in H |- *
  end.

Section RotationFrame.

Variable appName : string.

Lemma frame_logFileTouch env name s : RotFrame s (logFileTouch env name s).2.
Proof.
  unfold logFileTouch. destruct (create_fails env name); cbn.
  - apply frame_callErrorHandler.
  - etrans; [apply frame_set_fs | by apply frame_emit].
Qed.

Lemma frame_createMainFile env s : RotFrame s (createMainFile appName env s).2.
Proof.
  unfold createMainFile.
  pose proof (frame_logFileTouch env (mainLogFileName appName) s) as H.
  frame_call H. destruct ok; cbn; [done|].
  etrans; [exact H | apply frame_set_logFileName].
Qed.

Lemma frame_dropNonNumeric env l s : RotFrame s (dropNonNumeric env l s).2.
Proof.
  induction l as [|f l IH]; cbn; [reflexivity|].
  frame_call IH.
  destruct (QStr.toUInt (postfix (fileName f))); cbn; [done|].
  pose proof (frame_fileRemove env (fileName f) st) as H.
  frame_call H. destruct ok0; cbn.
  - by etrans.
  - etrans; [exact IH|]. etrans; [exact H | apply frame_callErrorHandler].
Qed.

Lemma frame_removeLastFile env l s : RotFrame s (removeLastFile env l s).2.
Proof.
  unfold removeLastFile. destruct (last l) as [f|]; [|reflexivity].
  pose proof (frame_fileRemove env (fileName f) s) as H.
  frame_call H. destruct ok; cbn; [done|].
  etrans; [exact H | apply frame_callErrorHandler].
Qed.

Lemma frame_removeRedundant env fuel l s :
  RotFrame s (removeRedundant env fuel l s).2.
Proof.
  revert l s; induction fuel as [|fuel IH]; intros l s; cbn; [reflexivity|].
  destruct (_ <? _)%N; [|reflexivity].
  pose proof (frame_removeLastFile env l s) as H.
  frame_call H. etrans; [exact H | apply IH].
Qed.

Lemma frame_tempRename env l s : RotFrame s (tempRename env l s).2.
Proof.
  revert s; induction l as [|f l IH]; intros s; cbn; [reflexivity|].
  pose proof (frame_fileRename env (fileName f) (fileName f +:+ ".temp") s) as H.
  frame_call H.
  match goal with |- RotFrame _ (let '(_, _) := tempRename env l ?s2 in _).2 =>
    specialize (IH s2); assert (RotFrame s s2) as H2
  end.
  { destruct ok; [done|]. etrans; [exact H | apply frame_callErrorHandler]. }
  frame_call IH. by etrans.
Qed.

Lemma frame_linearRename env i l s : RotFrame s (linearRename appName env i l s).2.
Proof.
  revert i s; induction l as [|f l IH]; intros i s; cbn; [reflexivity|].
  specialize (IH (S i) s). frame_call IH.
  destruct (decide _); cbn; [done|].
  pose proof (frame_fileRename env (fileName f) (logName appName (S i)) st) as H.
  frame_call H. destruct ok0; cbn.
  - by etrans.
  - etrans; [exact IH|]. etrans; [exact H | apply frame_callErrorHandler].
Qed.

Lemma frame_makeNewFile env l s : RotFrame s (makeNewFile appName env l s).2.
Proof.
  unfold makeNewFile.
  assert (RotFrame s
            (if (m_maxLogFiles (cfg s) <=? N.of_nat (length l))%N
             then removeLastFile env l s else (l, s)).2) as H1.
  { destruct (_ <=? _)%N; [apply frame_removeLastFile | reflexivity]. }
  frame_call H1.
  assert (RotFrame st
            (if obstacleFound appName ok then tempRename env ok st else (ok, st)).2) as H2.
  { destruct (obstacleFound _ _); [apply frame_tempRename | reflexivity]. }
  frame_call H2.
  pose proof (frame_linearRename env 0 ok0 st0) as H3. frame_call H3.
  etrans; [exact H1|]. etrans; [exact H2|]. etrans; [exact H3|].
  apply frame_createMainFile.
Qed.

Lemma frame_scanAndRotate env s : RotFrame s (scanAndRotate appName env s).2.
Proof.
  unfold scanAndRotate.
  pose proof (frame_dropNonNumeric env (entryInfoList appName (fs s)) s) as H0.
  frame_call H0.
  destruct (sortByPostfix ok) as [|f0 rest].
  - etrans; [exact H0 | apply frame_createMainFile].
  - pose proof (frame_removeRedundant env (length (f0 :: rest)) (f0 :: rest) st) as H1.
    frame_call H1.
    destruct ok0 as [|first others]; cbn; [by etrans|].
    destruct (_ || _); cbn; [|by etrans].
    etrans; [exact H0|]. etrans; [exact H1 | apply frame_makeNewFile].
Qed.

Lemma frame_rotateFinish env s : RotFrame s (rotateFinish appName env s).
Proof.
  unfold rotateFinish.
  set (s1 := if firstTime s then s else _).
  assert (RotFrame s s1) as H1.
  { subst s1. destruct (firstTime s); [reflexivity | apply frame_set_logRotationTime]. }
  set (s2 := if _ && _ && _ && _ then _ else s1).
  assert (RotFrame s1 s2) as H2.
  { subst s2. destruct (_ && _ && _ && _); [by apply frame_emit | reflexivity]. }
  etrans; [exact H1|]. etrans; [exact H2|].
  etrans; [apply frame_set_firstTime | apply frame_set_logFileName].
Qed.

Lemma frame_rotateLogFiles env s : RotFrame s (rotateLogFiles appName env s).2.
Proof.
  unfold rotateLogFiles. destruct (decide _); [apply frame_callErrorHandler|].
  cbv zeta. set (s1 := set_logFileName _ s).
  assert (RotFrame s s1) as H1 by apply frame_set_logFileName.
  assert (RotFrame s1
            (if decide (m_logFileName s1 = "")
             then scanAndRotate appName env s1 else (true, s1)).2) as H2.
  { destruct (decide _); [apply frame_scanAndRotate | reflexivity]. }
  frame_call H2. destruct ok; cbn [fst snd].
  - etrans; [exact H1|]. etrans; [exact H2 | apply frame_rotateFinish].
  - by etrans.
Qed.


End RotationFrame.

(** ** Projections of traces *)

Lemma string_app_assoc (a b c : string) : (a +:+ b) +:+ c = a +:+ (b +:+ c).
Proof.
  induction a as [|x a IH]; [done|].
  change (String x ((a +:+ b) +:+ c) = String x (a +:+ (b +:+ c))). by f_equal.
Qed.

Lemma string_app_nil_r (a : string) : a +:+ "" = a.
Proof.
  induction a as [|x a IH]; [done|].
  change (String x (a +:+ "") = String x a). by f_equal.
Qed.

Lemma writesOf_app t1 t2 : writesOf (t1 ++ t2) = writesOf t1 ++ writesOf t2.
Proof. apply omap_app. Qed.

Lemma sendLogsOf_app t1 t2 : sendLogsOf (t1 ++ t2) = sendLogsOf t1 ++ sendLogsOf t2.
Proof. apply omap_app. Qed.


Lemma rotation_events_silent evs :
  forallb rotationEvent evs = true ->
  writesOf evs = [] /\ sendLogsOf evs = [] /\ syncsOf evs = [].
Proof.
  induction evs as [|e evs IH]; [done|].
  cbn [forallb]. intros [He Hevs]%andb_true_iff.
  destruct (IH Hevs) as (Hw & Hs & Hy).
  destruct e; try discriminate He; cbn; by rewrite ?Hw, ?Hs, ?Hy.
Qed.

Lemma writesOf_writeEvents name lines :
  writesOf (writeEvents name lines)
  = (fun line => (name, line +:+ QStr.newline)) <$> lines.
Proof. induction lines as [|l lines IH]; cbn; [done | by f_equal]. Qed.

Lemma sendLogsOf_writeEvents name lines : sendLogsOf (writeEvents name lines) = [].
Proof. induction lines; cbn; done. Qed.


(** ** The writing loop *)

Lemma writeLines_trace name lines s :
  trace (writeLines name lines s) = trace s ++ writeEvents name lines.
Proof.
  revert s; induction lines as [|l lines IH]; intros s; cbn.
  - by rewrite app_nil_r.
  - rewrite IH; cbn. by rewrite <- app_assoc.
Qed.

Lemma writeLines_content name lines s c :
  fs s !! name = Some c ->
  fs (writeLines name lines s) !! name = Some (c +:+ joinLines lines).
Proof.
  revert s c; induction lines as [|l lines IH]; intros s c Hc; cbn.
  - by rewrite Hc, string_app_nil_r.
  - erewrite IH; [|cbn; rewrite Hc; apply lookup_insert_eq].
    cbn. by rewrite !string_app_assoc.
Qed.

Lemma writeLines_other name lines s other :
  other <> name -> fs (writeLines name lines s) !! other = fs s !! other.
Proof.
  intros Hne; revert s; induction lines as [|l lines IH]; intros s; cbn; [done|].
  rewrite IH; cbn. by rewrite lookup_insert_ne.
Qed.

Lemma writeLines_frame name lines s :
  cfg (writeLines name lines s) = cfg s
  /\ m_logBuffer (writeLines name lines s) = m_logBuffer s
  /\ m_logFileName (writeLines name lines s) = m_logFileName s.
Proof.
  revert s; induction lines as [|l lines IH]; intros s; cbn; [done|].
  destruct (IH (emit (EvWrite name (l +:+ QStr.newline))
                  (set_fs (<[name := default "" (fs s !! name)
                                      +:+ (l +:+ QStr.newline)]> (fs s)) s)))
    as (-> & -> & ->); done.
Qed.

Lemma openAppend_content name s :
  fs (openAppend name s) !! name = Some (default "" (fs s !! name)).
Proof.
  unfold openAppend. destruct (fs s !! name) eqn:E; cbn; [done|].
  apply lookup_insert_eq.
Qed.

Lemma enqueueAll_buffer lines s :
  m_logBuffer (enqueueAll lines s) = m_logBuffer s ++ lines.
Proof.
  unfold enqueueAll. revert s; induction lines as [|l lines IH]; intros s; cbn.
  - by rewrite app_nil_r.
  - rewrite IH; cbn. by rewrite <- app_assoc.
Qed.

Lemma enqueueAll_frame lines s :
  cfg (enqueueAll lines s) = cfg s
  /\ trace (enqueueAll lines s) = trace s
  /\ fs (enqueueAll lines s) = fs s.
Proof.
  unfold enqueueAll. revert s; induction lines as [|l lines IH]; intros s; cbn; [done|].
  destruct (IH (enqueue l s)) as (-> & -> & ->); done.
Qed.

(** ** Results of a rotation pass *)

Section RotationResult.

Variable appName : string.

Local Abbreviation main := (mainLogFileName appName).

Lemma createMainFile_fails env s :
  create_fails env main = true ->
  createMainFile appName env s
  = (false, set_logFileName main (callErrorHandler (creationError main) s)).
Proof. intros H. unfold createMainFile, logFileTouch. by rewrite H. Qed.

Lemma createMainFile_ok env s :
  create_fails env main = false ->
  createMainFile appName env s
  = (true, emit (EvTouch main) (set_fs (<[main := ""]> (fs s)) s)).
Proof. intros H. unfold createMainFile, logFileTouch. by rewrite H. Qed.

Lemma createMainFile_false env s s' :
  createMainFile appName env s = (false, s') ->
  create_fails env main = true
  /\ s' = set_logFileName main (callErrorHandler (creationError main) s).
Proof.
  destruct (create_fails env main) eqn:H.
  - rewrite createMainFile_fails by done. by intros [= <-].
  - rewrite createMainFile_ok by done. discriminate.
Qed.

Lemma makeNewFile_false env l s s' :
  makeNewFile appName env l s = (false, s') ->
  exists s3, createMainFile appName env s3 = (false, s').
Proof.
  unfold makeNewFile.
  destruct (if (_ <=? _)%N then _ else _) as [l1 s1].
  destruct (if obstacleFound _ _ then _ else _) as [l2 s2].
  destruct (linearRename _ _ _ _ _) as [l3 s3]. eauto.
Qed.

Lemma scanAndRotate_false env s s' :
  scanAndRotate appName env s = (false, s') ->
  exists s3, createMainFile appName env s3 = (false, s').
Proof.
  unfold scanAndRotate.
  destruct (dropNonNumeric _ _ _) as [l0 s0].
  destruct (sortByPostfix l0) as [|f0 rest]; [eauto|].
  destruct (removeRedundant _ _ _ _) as [l1 s1].
  destruct l1 as [|first others]; [discriminate|].
  destruct (_ || _); [apply makeNewFile_false | discriminate].
Qed.

Lemma rotateLogFiles_false env s s' :
  m_logDir (cfg s) <> "" ->
  rotateLogFiles appName env s = (false, s') ->
  exists s3, createMainFile appName env s3 = (false, s').
Proof.
  intros Hdir. unfold rotateLogFiles. destruct (decide _); [done|].
  cbv zeta. destruct (decide _).
  - destruct (scanAndRotate _ _ _) as [[] s2] eqn:E; [discriminate|].
    intros [= <-]. by eapply scanAndRotate_false.
  - discriminate.
Qed.

Lemma rotateFinish_name env s : m_logFileName (rotateFinish appName env s) = main.
Proof. done. Qed.

Lemma rotateLogFiles_true env s s' :
  rotateLogFiles appName env s = (true, s') ->
  m_logFileName s' = main /\ m_logDir (cfg s) <> "".
Proof.
  unfold rotateLogFiles. destruct (decide _); [discriminate|].
  cbv zeta. destruct (if decide _ then _ else _) as [[] s2]; [|discriminate].
  by intros [= <-].
Qed.


End RotationResult.

(** ** Results of a flush *)

Section FlushResult.

Variable appName : string.

Local Abbreviation main := (mainLogFileName appName).

Lemma flushFinish_effect env s :
  cfg (flushFinish env s) = cfg s
  /\ m_logBuffer (flushFinish env s) = m_logBuffer s
  /\ m_logFileName (flushFinish env s) = m_logFileName s
  /\ fs (flushFinish env s) = fs s
  /\ exists diag, trace (flushFinish env s) = trace s ++ diag
       /\ (diag = [] \/ exists e a, diag = [EvFlushDiag e a]).
Proof.
  unfold flushFinish. cbv zeta.
  destruct (_ && _ && _); cbn; repeat split; try done.
  - eexists; split; [done|]. right; eauto.
  - exists []; split; [by rewrite app_nil_r | by left].
Qed.

Lemma flushBuffer_effect force env s :
  cfg (flushBuffer appName force env s).2 = cfg s
  /\ flushEffect appName force env s
       (flushBuffer appName force env s).1 (flushBuffer appName force env s).2.
Proof.
  unfold flushBuffer. cbv zeta.
  set (s0 := if m_logBufferEnabled (cfg s) then emit EvTimerStart s else s).
  assert (cfg s0 = cfg s /\ m_logBuffer s0 = m_logBuffer s /\ fs s0 = fs s
          /\ trace s0 = trace s ++ timerEvents s) as (Hc0 & Hb0 & Hf0 & Ht0).
  { subst s0. unfold timerEvents. destruct (m_logBufferEnabled (cfg s)); cbn;
      repeat split; try done. by rewrite app_nil_r. }
  destruct (m_logBuffer s0) as [|l0 ls] eqn:Hbuf.
  { cbn [fst snd flushEffect]. repeat split; congruence. }
  assert (m_logBuffer s <> []) as Hne by (rewrite <- Hb0; done).
  set (s1 := if _ && _ then _ else s0).
  assert (cfg s1 = cfg s /\ m_logBuffer s1 = m_logBuffer s /\ trace s1 = trace s0)
    as (Hc1 & Hb1 & Ht1).
  { subst s1. destruct (_ && _); cbn; repeat split; congruence. }
  set (s2 := set_logBuffer (meanwhile env) s1).
  pose proof (frame_rotateLogFiles appName env s2) as Hrot.
  destruct (rotateLogFiles appName env s2) as [ok s3] eqn:Erot. cbn [snd] in Hrot.
  destruct Hrot as [Hc3 Hb3 _ _ (evs & Ht3 & Hevs)].
  cbn in Hc3, Hb3, Ht3. rewrite Ht1, Ht0 in Ht3.
  destruct ok; cbn [negb].
  - apply rotateLogFiles_true in Erot as [Hname _].
    destruct (open_fails env (m_logFileName s3)) eqn:Hopen; cbn [fst snd].
    + split; [cbn; unfold callErrorHandler; destruct (m_errorHandler _); cbn; congruence|].
      split; [done|]. split; [|split; [|by rewrite <- Hname]].
      * cbn. unfold callErrorHandler; destruct (m_errorHandler _); cbn; congruence.
      * unfold callErrorHandler. destruct (m_errorHandler (cfg s3)); cbn.
        -- exists (evs ++ [EvError ("Log file " +:+ QStr.dquote +:+ m_logFileName s3
                                     +:+ QStr.dquote +:+ " open error: "
                                     +:+ open_error env)]).
           split; [rewrite Ht3; by repeat rewrite <- app_assoc|].
           by rewrite forallb_app, Hevs.
        -- exists evs. rewrite Ht3. by repeat rewrite <- app_assoc.
    + rewrite Hname.
      set (s4 := writeLines main (m_logBuffer s1) (openAppend main s3)).
      set (s5 := if force then emit (EvSync main) s4 else s4).
      destruct (flushFinish_effect env s5) as (Hc6 & Hb6 & Hn6 & Hf6 & diag & Ht6 & Hdiag).
      assert (cfg s4 = cfg (openAppend main s3)
              /\ m_logBuffer s4 = m_logBuffer (openAppend main s3)
              /\ m_logFileName s4 = m_logFileName (openAppend main s3))
        as (Hc4 & Hb4 & Hn4) by apply writeLines_frame.
      assert (cfg (openAppend main s3) = cfg s3
              /\ m_logBuffer (openAppend main s3) = m_logBuffer s3
              /\ m_logFileName (openAppend main s3) = m_logFileName s3
              /\ trace (openAppend main s3) = trace s3) as (Hco & Hbo & Hno & Hto).
      { unfold openAppend. destruct (fs s3 !! main); by repeat split. }
      assert (cfg s5 = cfg s4 /\ m_logBuffer s5 = m_logBuffer s4
              /\ m_logFileName s5 = m_logFileName s4 /\ fs s5 = fs s4
              /\ trace s5 = trace s4 ++ (if force then [EvSync main] else []))
        as (Hc5 & Hb5 & Hn5 & Hf5 & Ht5).
      { subst s5. destruct force; cbn; repeat split; try done. by rewrite app_nil_r. }
      split; [congruence|].
      split; [done|]. split; [congruence|]. split; [congruence|]. split.
      * exists (default "" (fs s3 !! main)).
        rewrite Hf6, Hf5. subst s4. rewrite <- Hb1.
        apply writeLines_content, openAppend_content.
      * exists evs, diag. split; [|done].
        rewrite Ht6, Ht5. subst s4.
        rewrite writeLines_trace, Hto, Ht3, Hb1. by repeat rewrite <- app_assoc.
  - cbn [fst snd]. split; [cbn; congruence|].
    split; [done|]. split; [cbn; congruence|]. split.
    + exists evs. cbn. rewrite Ht3. by repeat rewrite <- app_assoc.
    + destruct (decide (m_logDir (cfg s) = "")) as [|Hdir]; [by left | right].
      assert (m_logDir (cfg s2) <> "") as Hdir2 by (cbn; congruence).
      destruct (rotateLogFiles_false _ _ _ _ Hdir2 Erot) as (sx & Hx).
      by apply createMainFile_false in Hx as [Hx _].
Qed.

End FlushResult.

(** ** What a flush adds to the trace *)

Section FlushTrace.

Variable appName : string.

Local Abbreviation main := (mainLogFileName appName).

Lemma timerEvents_silent s :
  writesOf (timerEvents s) = [] /\ sendLogsOf (timerEvents s) = []
  /\ syncsOf (timerEvents s) = [].
Proof. unfold timerEvents. by destruct (m_logBufferEnabled (cfg s)). Qed.

Lemma flushBuffer_written force env s :
  m_logBuffer s <> [] ->
  m_logDir (cfg s) <> "" ->
  create_fails env main = false ->
  open_fails env main = false ->
  (flushBuffer appName force env s).1 = FlushWritten.
Proof.
  intros Hne Hdir Hcreate Hopen.
  destruct (flushBuffer_effect appName force env s) as [_ H].
  destruct (flushBuffer appName force env s).1; cbn in H; [|..|done].
  - by destruct H.
  - destruct H as (_ & _ & _ & [?|?]); congruence.
  - destruct H as (_ & _ & _ & ?); congruence.
Qed.

Lemma flushBuffer_writes force env s :
  writesOf (trace (flushBuffer appName force env s).2)
  = writesOf (trace s)
    ++ match (flushBuffer appName force env s).1 with
       | FlushWritten =>
           (fun line => (main, line +:+ QStr.newline)) <$> m_logBuffer s
       | _ => []
       end.
Proof.
  destruct (flushBuffer_effect appName force env s) as [_ H].
  destruct (timerEvents_silent s) as (Tw & _ & _).
  destruct (flushBuffer appName force env s).1; cbn in H.
  - destruct H as (_ & _ & _ & ->). by rewrite writesOf_app, Tw.
  - destruct H as (_ & _ & (evs & -> & [Hw _]%rotation_events_silent) & _).
    by rewrite !writesOf_app, Tw, Hw.
  - destruct H as (_ & _ & (evs & -> & [Hw _]%rotation_events_silent) & _).
    by rewrite !writesOf_app, Tw, Hw.
  - destruct H as (_ & _ & _ & _ & evs & diag & -> & [Hw _]%rotation_events_silent & Hd).
    rewrite !writesOf_app, Tw, Hw, writesOf_writeEvents. cbn.
    replace (writesOf (if force then [EvSync main] else [])) with (@nil (string * string))
      by (by destruct force).
    replace (writesOf diag) with (@nil (string * string))
      by (by destruct Hd as [->|(? & ? & ->)]).
    by rewrite !app_nil_r.
Qed.

Lemma flushBuffer_sendLogs force env s :
  sendLogsOf (trace (flushBuffer appName force env s).2) = sendLogsOf (trace s).
Proof.
  destruct (flushBuffer_effect appName force env s) as [_ H].
  destruct (timerEvents_silent s) as (_ & Ts & _).
  destruct (flushBuffer appName force env s).1; cbn in H.
  - destruct H as (_ & _ & _ & ->). by rewrite sendLogsOf_app, Ts, app_nil_r.
  - destruct H as (_ & _ & (evs & -> & (_ & Hs & _)%rotation_events_silent) & _).
    by rewrite !sendLogsOf_app, Ts, Hs, !app_nil_r.
  - destruct H as (_ & _ & (evs & -> & (_ & Hs & _)%rotation_events_silent) & _).
    by rewrite !sendLogsOf_app, Ts, Hs, !app_nil_r.
  - destruct H as (_ & _ & _ & _ & evs & diag & -> & (_ & Hs & _)%rotation_events_silent & Hd).
    rewrite !sendLogsOf_app, Ts, Hs, sendLogsOf_writeEvents. cbn.
    replace (sendLogsOf (if force then [EvSync main] else []))
      with (@nil (string * QtMsgType * string * string)) by (by destruct force).
    replace (sendLogsOf diag) with (@nil (string * QtMsgType * string * string))
      by (by destruct Hd as [->|(? & ? & ->)]).
    by rewrite !app_nil_r.
Qed.


End FlushTrace.

(** ** The producer side *)

Section HandlerFacts.

Variable appName : string.

Local Abbreviation main := (mainLogFileName appName).

Lemma mainLogFileName_nonempty : main <> "".
Proof. unfold mainLogFileName. by destruct appName. Qed.


Lemma writeEvents_snoc name lines line :
  writeEvents name (lines ++ [line])
  = writeEvents name lines ++ [EvWrite name (line +:+ QStr.newline)].
Proof. unfold writeEvents. by rewrite fmap_app. Qed.

(** The window changes the buffer and its high-water mark only. *)
Lemma window_frame w s :
  cfg (foldl interfere s w) = cfg s
  /\ trace (foldl interfere s w) = trace s
  /\ fs (foldl interfere s w) = fs s
  /\ m_logFileName (foldl interfere s w) = m_logFileName s.
Proof.
  revert s; induction w as [|a w IH]; intros s; [done|].
  cbn [foldl]. destruct (IH (interfere s a)) as (-> & -> & -> & ->).
  destruct a; cbn; [done| |done]. unfold otherFlush.
  destruct (m_logBuffer s); [done|]. by destruct (_ && _).
Qed.



Lemma enqueueThenFlush_sendLogs force env line s :
  sendLogsOf (trace (enqueueThenFlush appName force env line s))
  = sendLogsOf (trace s).
Proof.
  unfold enqueueThenFlush. rewrite flushBuffer_sendLogs.
  by destruct (window_frame (window env) (enqueue line s)) as (_ & -> & _).
Qed.


Lemma consoleOut_effect r s :
  cfg (consoleOut r s) = cfg s
  /\ m_logBuffer (consoleOut r s) = m_logBuffer s
  /\ fs (consoleOut r s) = fs s
  /\ exists evs, trace (consoleOut r s) = trace s ++ evs
       /\ writesOf evs = [] /\ sendLogsOf evs = [] /\ syncsOf evs = [].
Proof.
  unfold consoleOut.
  destruct (decide _); [destruct (levelGreaterOrEqual _ _) | destruct (decide _)];
    cbn; repeat split; try done;
    first [ by eexists [_] | by exists []; rewrite app_nil_r ].
Qed.

End HandlerFacts.

(** ** The directory during a rotation pass *)


Lemma callErrorHandler_fs msg s : fs (callErrorHandler msg s) = fs s.
Proof. unfold callErrorHandler; by destruct (m_errorHandler _). Qed.

Lemma fileRemove_other env n s x :
  n <> x -> fs (fileRemove env n s).2 !! x = fs s !! x.
Proof.
  intros Hne. unfold fileRemove.
  destruct (fs s !! n); [|done].
  destruct (remove_fails env n); [done|].
  cbn. by rewrite lookup_delete_ne.
Qed.

Lemma fileRemove_gone env n s :
  remove_fails env n = false -> fs (fileRemove env n s).2 !! n = None.
Proof.
  intros Hrm. unfold fileRemove.
  destruct (fs s !! n) eqn:E; [|done].
  rewrite Hrm. cbn. by rewrite lookup_delete_eq.
Qed.

Lemma fileRemove_shrinks env n s x :
  fs s !! x = None -> fs (fileRemove env n s).2 !! x = None.
Proof.
  intros Hx. destruct (decide (n = x)) as [->|Hne].
  - unfold fileRemove. rewrite Hx. done.
  - by rewrite fileRemove_other.
Qed.

Lemma fileRename_cases env old new s :
  ((fileRename env old new s).1 = true /\
   exists c, fs s !! old = Some c /\ fs s !! new = None /\
     fs (fileRename env old new s).2 = <[new := c]> (delete old (fs s)))
  \/ ((fileRename env old new s).1 = false /\ fileRename env old new s = (false, s)).
Proof.
  unfold fileRename.
  destruct (fs s !! old) as [c|] eqn:Eo; [|by right].
  destruct (fs s !! new) eqn:En; [by right|].
  destruct (rename_fails env old new); [by right|].
  left. split; [done|]. by exists c.
Qed.

Lemma fileRename_other env old new s x :
  old <> x -> new <> x -> fs (fileRename env old new s).2 !! x = fs s !! x.
Proof.
  intros Ho Hn.
  destruct (fileRename_cases env old new s) as [[_ (c & _ & _ & ->)]|[_ ->]]; [|done].
  by rewrite lookup_insert_ne, lookup_delete_ne.
Qed.


Section Listing.

Variable appName : string.
Local Abbreviation main := (mainLogFileName appName).

(** The listing holds exactly the log files of the directory, each once,
    with the size of its content. *)
Lemma elem_of_entryInfoList dir f :
  f ∈ entryInfoList appName dir <->
  matchesPattern appName (fileName f) = true /\
  exists c, dir !! fileName f = Some c /\ size f = contentSize c.
Proof.
  unfold entryInfoList. rewrite list_elem_of_fmap. split.
  - intros ([n c] & -> & Hin). rewrite merge_sort_Permutation in Hin.
    apply list_elem_of_filter in Hin as [Hm Hin]. cbn in *.
    apply elem_of_map_to_list in Hin.
    split; [by apply Is_true_true|]. by exists c.
  - intros [Hm (c & Hc & Hs)]. exists (fileName f, c). split.
    + destruct f as [n sz]; cbn in *. by rewrite Hs.
    + rewrite merge_sort_Permutation. apply list_elem_of_filter.
      split; [by apply Is_true_true|]. by apply elem_of_map_to_list.
Qed.

Lemma NoDup_entryInfoList dir : NoDup (names (entryInfoList appName dir)).
Proof.
  unfold names, entryInfoList. rewrite <- list_fmap_compose.
  rewrite merge_sort_Permutation.
  change ((fileName ∘ _) <$> ?l) with (l.*1).
  eapply sublist_NoDup; [apply (NoDup_fst_map_to_list dir)|].
  apply fmap_sublist, sublist_filter.
Qed.



End Listing.

Section DirectorySteps.

Variable appName : string.
Local Abbreviation main := (mainLogFileName appName).

(** The first loop: the entries kept are a sub-list of the listing; files
    outside the listing and (when no name is listed twice) the files kept
    are not touched; the files dropped are gone when no removal fails. *)
Lemma dropNonNumeric_dir env l s :
  (dropNonNumeric env l s).1 `sublist_of` l /\
  (forall x, x ∉ names l -> fs (dropNonNumeric env l s).2 !! x = fs s !! x) /\
  (NoDup (names l) -> forall x, x ∈ names (dropNonNumeric env l s).1 ->
     fs (dropNonNumeric env l s).2 !! x = fs s !! x) /\
  ((forall n, remove_fails env n = false) ->
     forall x, x ∈ names l -> x ∉ names (dropNonNumeric env l s).1 ->
     fs (dropNonNumeric env l s).2 !! x = None).
Proof.
  induction l as [|f l IH]; cbn [dropNonNumeric].
  - repeat split; done.
  - destruct (dropNonNumeric env l s) as [kept s1]. cbn [fst snd] in IH.
    destruct IH as (Hsub & Hout & Hkept & Hgone).
    destruct (QStr.toUInt (postfix (fileName f))) as [v|]; cbn [fst snd].
    + split; [by apply sublist_skip|]. split; [|split].
      * intros x Hx. apply Hout. intros Hin. apply Hx. by apply list_elem_of_further.
      * intros Hnd x Hx. cbn in Hnd. apply NoDup_cons in Hnd as [Hf Hnd].
        destruct (decide (x ∈ names l)) as [Hin|Hin]; [|by apply Hout].
        cbn in Hx. apply elem_of_cons in Hx as [->|Hx]; [done|]. by apply Hkept.
      * intros Hrm x Hx Hnk. cbn in Hx, Hnk.
        apply not_elem_of_cons in Hnk as [Hne Hnk].
        apply elem_of_cons in Hx as [->|Hx]; [done|]. by apply Hgone.
    + assert (forall x, fileName f <> x ->
        fs (let '(ok, s2) := fileRemove env (fileName f) s1 in
            if ok then s2
            else callErrorHandler (unknownDeletionError (fileName f)) s2) !! x
        = fs s1 !! x) as Hoth.
      { intros x Hne. pose proof (fileRemove_other env (fileName f) s1 x Hne) as H.
        destruct (fileRemove env (fileName f) s1) as [[] s2]; cbn in *;
          by rewrite ?callErrorHandler_fs. }
      destruct (fileRemove env (fileName f) s1) as [ok s2] eqn:Erm. cbn [fst snd].
      split; [by apply sublist_cons|]. split; [|split].
      * intros x Hx. cbn in Hx. apply not_elem_of_cons in Hx as [Hne Hx].
        rewrite Hoth by done. by apply Hout.
      * intros Hnd x Hx. cbn in Hnd. apply NoDup_cons in Hnd as [Hf Hnd].
        assert (x ∈ names l) as Hin.
        { unfold names in *. eapply elem_of_sublist; [exact Hx|].
          by apply fmap_sublist. }
        rewrite Hoth by (intros <-; done). by apply Hkept.
      * intros Hrm x Hx Hnk. cbn in Hx.
        destruct (decide (fileName f = x)) as [<-|Hne].
        -- pose proof (fileRemove_gone env (fileName f) s1 (Hrm _)) as H.
           rewrite Erm in H. cbn in H. destruct ok; by rewrite ?callErrorHandler_fs.
        -- rewrite Hoth by done. apply elem_of_cons in Hx as [->|Hx]; [done|].
           by apply Hgone.
Qed.

(** Removing the last entry: the list loses its tail, only that file can
    change, and it is gone when the removal does not fail. *)
Lemma removeLastFile_dir env l s :
  exists removed,
    l = (removeLastFile env l s).1 ++ removed /\
    (forall x, x ∉ names removed ->
       fs (removeLastFile env l s).2 !! x = fs s !! x) /\
    ((forall n, remove_fails env n = false) ->
       forall x, x ∈ names removed -> fs (removeLastFile env l s).2 !! x = None).
Proof.
  unfold removeLastFile. destruct (last l) as [f|] eqn:Hlast.
  - apply last_Some in Hlast as [l' ->]. rewrite removelast_last.
    exists [f].
    pose proof (fileRemove_other env (fileName f) s) as Hoth.
    pose proof (fileRemove_gone env (fileName f) s) as Hgone.
    destruct (fileRemove env (fileName f) s) as [ok s1]. cbn [fst snd] in *.
    assert (fs (if ok then s1 else callErrorHandler (deletionError (fileName f)) s1)
            = fs s1) as -> by (destruct ok; by rewrite ?callErrorHandler_fs).
    split; [done|]. split.
    + intros x Hx. apply Hoth. intros <-. apply Hx. cbn. by left.
    + intros Hrm x Hx. cbn in Hx. apply list_elem_of_singleton in Hx as ->.
      by apply Hgone.
  - exists []. cbn. rewrite app_nil_r. repeat split; try done.
    intros _ x Hx. by apply elem_of_nil in Hx.
Qed.

Lemma removeRedundant_dir env fuel l s :
  exists removed,
    l = (removeRedundant env fuel l s).1 ++ removed /\
    (forall x, x ∉ names removed ->
       fs (removeRedundant env fuel l s).2 !! x = fs s !! x) /\
    ((forall n, remove_fails env n = false) ->
       forall x, x ∈ names removed -> fs (removeRedundant env fuel l s).2 !! x = None).
Proof.
  revert l s. induction fuel as [|fuel IH]; intros l s; cbn [removeRedundant].
  - exists []. cbn. rewrite app_nil_r. repeat split; try done.
    intros _ x Hx. by apply elem_of_nil in Hx.
  - destruct (_ <? _)%N.
    + destruct (removeLastFile_dir env l s) as (r1 & Hl1 & Hout1 & Hgone1).
      destruct (removeLastFile env l s) as [l1 s1]. cbn [fst snd] in *.
      destruct (IH l1 s1) as (r2 & Hl2 & Hout2 & Hgone2).
      exists (r2 ++ r1). split; [|split].
      * rewrite app_assoc, <- Hl2. exact Hl1.
      * intros x Hx. unfold names in Hx. rewrite fmap_app in Hx.
        apply not_elem_of_app in Hx as [Hx2 Hx1].
        rewrite Hout2 by done. by apply Hout1.
      * intros Hrm x Hx. unfold names in Hx. rewrite fmap_app in Hx.
        destruct (decide (x ∈ names r2)) as [H2|H2]; [by apply Hgone2|].
        apply elem_of_app in Hx as [Hx|Hx]; [done|].
        rewrite Hout2 by done. by apply Hgone1.
    + exists []. cbn. rewrite app_nil_r. repeat split; try done.
      intros _ x Hx. by apply elem_of_nil in Hx.
Qed.

Lemma removeRedundant_nonempty env fuel l s :
  l <> [] -> (1 <= m_maxLogFiles (cfg s))%N ->
  (removeRedundant env fuel l s).1 <> [].
Proof.
  revert l s. induction fuel as [|fuel IH]; intros l s Hl Hmax; cbn [removeRedundant];
    [done|].
  destruct (_ <? _)%N eqn:Hcmp; [|done]. apply N.ltb_lt in Hcmp.
  pose proof (frame_removeLastFile env l s) as Hf.
  unfold removeLastFile in *. destruct (last l) as [f|] eqn:Hlast.
  - apply last_Some in Hlast as [l' ->]. rewrite removelast_last in *.
    destruct (fileRemove env (fileName f) s) as [ok s1]. cbn [fst snd] in *.
    apply IH; [|by destruct Hf as [-> _ _ _ _]].
    intros ->. cbn in Hcmp. lia.
  - cbn [fst snd] in *. by apply IH.
Qed.







End DirectorySteps.

(** * The claims *)

(** C2: on the five levels [levelGreaterOrEqual] is the threshold table of
    section 4.1, which is the comparison [level >= minLevel] in the order
    Debug < Info < Warning < Critical < Fatal; with minimum level Critical
    exactly Critical and Fatal pass. *)
Theorem levelGreaterOrEqual_table (level minLevel : QtMsgType) :
  levelGreaterOrEqual level minLevel = thresholdTable minLevel level
  /\ (levelGreaterOrEqual level minLevel = true <->
      levelRank minLevel <= levelRank level)
  /\ (levelGreaterOrEqual level QtCriticalMsg = true <->
      level = QtCriticalMsg \/ level = QtFatalMsg).
Proof.
  repeat split; destruct level, minLevel; cbn; intros; try done; try lia;
    try (left; done); try (right; done); destruct H; done.
Qed.

Section Claims.

Variable appName : string.

Local Abbreviation main := (mainLogFileName appName).

(** C1: after any sequence of lines has been enqueued into an empty buffer,
    a flush that meets no I/O failure (the log directory is set, the main
    file can be created and opened) writes exactly those lines to the active
    file, each followed by the line terminator, in enqueue order and once;
    the buffer then holds none of them (only what other producers enqueued
    during the flush), and the active file ends with the written lines. *)
Theorem flushBuffer_writes_enqueued_lines
    (force : bool) (env : Env) (lines : list string) (s0 : State) :
  m_logBuffer s0 = [] ->
  m_logDir (cfg s0) <> "" ->
  create_fails env main = false ->
  open_fails env main = false ->
  writesOf (trace (flushBuffer appName force env (enqueueAll lines s0)).2)
  = writesOf (trace s0) ++ ((fun line => (main, line +:+ QStr.newline)) <$> lines)
  /\ (lines <> [] ->
      m_logBuffer (flushBuffer appName force env (enqueueAll lines s0)).2
      = meanwhile env
      /\ exists base,
          fs (flushBuffer appName force env (enqueueAll lines s0)).2 !! main
          = Some (base +:+ joinLines lines))
  /\ (lines = [] ->
      m_logBuffer (flushBuffer appName force env (enqueueAll lines s0)).2 = []).
Proof.
  intros Hempty Hdir Hcreate Hopen.
  pose proof (enqueueAll_buffer lines s0) as Hbuf. rewrite Hempty in Hbuf. cbn in Hbuf.
  destruct (enqueueAll_frame lines s0) as (Hcfg & Htr & _).
  pose proof (flushBuffer_writes appName force env (enqueueAll lines s0)) as Hw.
  destruct (flushBuffer_effect appName force env (enqueueAll lines s0)) as [_ He].
  destruct lines as [|l ls].
  - destruct (flushBuffer appName force env (enqueueAll [] s0)) as [r s'].
    cbn [fst snd] in *. destruct r; cbn [flushEffect] in He.
    + rewrite Hw, Htr. split; [done|]. split; [done|]. intros _. by destruct He as (_ & ? & _).
    + by destruct He.
    + by destruct He.
    + by destruct He.
  - assert ((flushBuffer appName force env (enqueueAll (l :: ls) s0)).1 = FlushWritten)
      as Hr.
    { apply flushBuffer_written; rewrite ?Hbuf, ?Hcfg; done. }
    rewrite Hr in Hw, He. cbn [flushEffect] in He.
    destruct He as (_ & Hb & _ & (base & Hbase) & _).
    rewrite Hw, Htr, Hbuf. split; [done|]. split; [|done].
    intros _. split; [done|]. exists base. by rewrite Hbase, Hbuf.
Qed.


(** What a failed pass leaves behind: the creation of the main file has
    failed, the current file name is the main file name, the error went to
    the error handler last, and the buffer is untouched. *)
Lemma rotateLogFiles_failure_state (env : Env) (s s' : State) :
  m_logDir (cfg s) <> "" ->
  rotateLogFiles appName env s = (false, s') ->
  create_fails env main = true
  /\ m_logFileName s' = main
  /\ (m_errorHandler (cfg s) = true ->
      last (trace s') = Some (EvError (creationError main)))
  /\ m_logBuffer s' = m_logBuffer s
  /\ (checkCurrentName appName s' <> "" <->
      exists c, fs s' !! main = Some c
                /\ (contentSize c < m_maxLogFileSize (cfg s'))%N).
Proof.
  intros Hdir Hrot.
  pose proof (frame_rotateLogFiles appName env s) as Hframe.
  rewrite Hrot in Hframe. cbn [snd] in Hframe.
  destruct (rotateLogFiles_false _ _ _ _ Hdir Hrot) as (s3 & H3).
  pose proof (frame_createMainFile appName env s3) as Hframe3.
  rewrite H3 in Hframe3. cbn [snd] in Hframe3.
  apply createMainFile_false in H3 as [Hfail ->].
  split; [done|].
  split; [done|]. split; [|split; [apply Hframe|]].
  - intros Hh. cbn. unfold callErrorHandler.
    assert (m_errorHandler (cfg s3) = true) as ->.
    { destruct Hframe as [Hc _ _ _ _]. destruct Hframe3 as [Hc3 _ _ _ _].
      cbn in Hc, Hc3. unfold callErrorHandler in Hc, Hc3.
      destruct (m_errorHandler (cfg s3)) eqn:E; [done|]. cbn in Hc. congruence. }
    cbn. apply last_snoc.
  - unfold checkCurrentName. cbn [m_logFileName set_logFileName].
    destruct (decide (main = "")) as [Hm|_]; [by apply mainLogFileName_nonempty in Hm|].
    destruct (decide (main = main)); [|done].
    match goal with |- context [fs ?st !! main] => destruct (fs st !! main) as [c|] end.
    + destruct (_ <=? _)%N eqn:Hsz.
      * apply N.leb_le in Hsz. split; [done|]. intros (c' & [= <-] & Hlt). lia.
      * apply N.leb_gt in Hsz. split; [|intros _; apply mainLogFileName_nonempty].
        intros _. by exists c.
    + split; [done|]. by intros (c & ? & _).
Qed.

(** The branch "new file is needed" always ends with the creation of the
    main file, and its result is the result of that creation. *)
Lemma makeNewFile_reaches_creation env l s :
  exists s3, makeNewFile appName env l s = createMainFile appName env s3.
Proof.
  unfold makeNewFile.
  destruct (if (_ <=? _)%N then _ else _) as [l1 s1].
  destruct (if obstacleFound _ _ then _ else _) as [l2 s2].
  destruct (linearRename _ _ _ _ _) as [l3 s3]. by exists s3.
Qed.

(** A scan that finds the main file missing or at the size limit creates
    a new one, and the result of the scan is the result of that creation. *)
Lemma scanAndRotate_reaches_creation env s :
  (1 <= m_maxLogFiles (cfg s))%N ->
  (forall c, fs s !! main = Some c ->
     (m_maxLogFileSize (cfg s) <= contentSize c)%N) ->
  exists s3, scanAndRotate appName env s = createMainFile appName env s3.
Proof.
  intros Hmax Hfull. unfold scanAndRotate.
  destruct (dropNonNumeric_dir env (entryInfoList appName (fs s)) s) as (Hsub & _).
  pose proof (frame_dropNonNumeric env (entryInfoList appName (fs s)) s) as Hf0.
  destruct (dropNonNumeric env (entryInfoList appName (fs s)) s) as [l0 s0].
  cbn [fst snd] in *.
  assert (cfg s0 = cfg s) as Hcfg0 by (by destruct Hf0).
  assert (forall f, f ∈ sortByPostfix l0 -> f ∈ l0) as Hsort.
  { intros f. unfold sortByPostfix. by rewrite merge_sort_Permutation. }
  destruct (sortByPostfix l0) as [|f0 rest]; [by exists s0|].
  destruct (removeRedundant_dir env (length (f0 :: rest)) (f0 :: rest) s0)
    as (removed & Hl & _).
  pose proof (removeRedundant_nonempty env (length (f0 :: rest)) (f0 :: rest) s0
                ltac:(done) ltac:(by rewrite Hcfg0)) as Hne.
  pose proof (frame_removeRedundant env (length (f0 :: rest)) (f0 :: rest) s0) as Hf1.
  destruct (removeRedundant env (length (f0 :: rest)) (f0 :: rest) s0) as [l1 s1].
  cbn [fst snd] in *.
  assert (cfg s1 = cfg s) as Hcfg1 by (destruct Hf1; congruence).
  destruct l1 as [|first l1']; [done|].
  assert ((m_maxLogFileSize (cfg s1) <=? size first)%N
          || negb (bool_decide (fileName first = main)) = true) as ->.
  { destruct (decide (fileName first = main)) as [Hname|Hname].
    - assert (first ∈ entryInfoList appName (fs s)) as Hin.
      { eapply elem_of_sublist; [|exact Hsub]. apply Hsort.
        rewrite Hl. apply elem_of_app. left. by left. }
      apply elem_of_entryInfoList in Hin as [_ (c & Hc & Hs)].
      rewrite Hname in Hc. rewrite Hcfg1, Hs.
      by rewrite (proj2 (N.leb_le _ _) (Hfull c Hc)).
    - rewrite (bool_decide_eq_false_2 _ Hname). apply orb_true_r. }
  apply makeNewFile_reaches_creation.
Qed.

(** C8 (amended): when a rotation pass has to create the main file (the log
    directory is set, the file limit is at least 1, and the main file is
    missing or has reached the size limit) and that creation fails,
    [rotateLogFiles] reports the error and returns failure, and the current
    file name is then the main file name, not the empty name.  The buffer
    is untouched, and the next pass keeps that name only if the main file
    exists below the size limit; otherwise it scans again. *)
Theorem touch_failure_sets_main_name (env : Env) (s : State) :
  m_logDir (cfg s) <> "" ->
  (1 <= m_maxLogFiles (cfg s))%N ->
  (forall c, fs s !! main = Some c ->
     (m_maxLogFileSize (cfg s) <= contentSize c)%N) ->
  create_fails env main = true ->
  (rotateLogFiles appName env s).1 = false
  /\ m_logFileName (rotateLogFiles appName env s).2 = main
  /\ (m_errorHandler (cfg s) = true ->
      last (trace (rotateLogFiles appName env s).2)
      = Some (EvError (creationError main)))
  /\ m_logBuffer (rotateLogFiles appName env s).2 = m_logBuffer s
  /\ (checkCurrentName appName (rotateLogFiles appName env s).2 <> "" <->
      exists c, fs (rotateLogFiles appName env s).2 !! main = Some c
                /\ (contentSize c
                    < m_maxLogFileSize (cfg (rotateLogFiles appName env s).2))%N).
Proof.
  intros Hdir Hmax Hfull Hfail.
  assert ((rotateLogFiles appName env s).1 = false) as Hres.
  { unfold rotateLogFiles. destruct (decide (m_logDir (cfg s) = "")); [done|].
    assert (checkCurrentName appName s = "") as ->.
    { unfold checkCurrentName. destruct (decide _); [done|].
      destruct (decide _) as [->|]; [|done].
      destruct (fs s !! main) as [c|] eqn:E; [|done].
      by rewrite (proj2 (N.leb_le _ _) (Hfull c eq_refl)). }
    cbn [m_logFileName set_logFileName]. destruct (decide ("" = "")); [|done].
    destruct (scanAndRotate_reaches_creation env (set_logFileName "" s) Hmax Hfull)
      as (s3 & ->).
    by rewrite createMainFile_fails. }
  split; [done|].
  destruct (rotateLogFiles appName env s) as [ok s'] eqn:Hrot. cbn [fst snd] in *.
  subst ok.
  by destruct (rotateLogFiles_failure_state env s s' Hdir Hrot) as (_ & ? & ? & ? & ?).
Qed.



(** C10 (amended): a non-fatal record that the handler does not drop on
    entry (a Debug record in a build with [NDEBUG] is dropped) and that the
    clean-category guard allows is passed to [sendLog] exactly once,
    whatever the minimum file level is; below that level the line is not
    enqueued, so the level gates the file output only. *)
Theorem sendLog_once_for_nonfatal (env : Env) (r : LogMessage) (s : State) :
  lm_type r <> QtFatalMsg ->
  ndebug (cfg s) && bool_decide (lm_type r = QtDebugMsg) = false ->
  mayPersist (cfg s) (lm_category r) = true ->
  sendLogsOf (trace (messageHandler appName env r s))
  = sendLogsOf (trace s)
    ++ [(lm_stamp r, lm_type r, lm_category r, message r)]
  /\ (levelGreaterOrEqual (lm_type r) (m_minOutFileLevel (cfg s)) = false ->
      m_logBuffer (messageHandler appName env r s) = m_logBuffer s
      /\ fs (messageHandler appName env r s) = fs s).
Proof.
  intros Hty Hnd Hmay.
  unfold messageHandler. rewrite Hnd.
  destruct (decide (lm_type r = QtFatalMsg)); [done|].
  destruct (consoleOut_effect r s) as (Hc & Hb & Hf & evs & Ht & _ & Hs & _).
  set (s0 := consoleOut r s) in *.
  unfold persist. rewrite Hc, Hmay.
  assert (sendLogsOf (trace s0) = sendLogsOf (trace s)) as Hs0
    by (by rewrite Ht, sendLogsOf_app, Hs, app_nil_r).
  split.
  - cbn [sendLog emit trace]. rewrite sendLogsOf_app. cbn [sendLogsOf omap].
    f_equal.
    destruct (levelGreaterOrEqual _ _); [|done].
    destruct (decide _); [by rewrite enqueueThenFlush_sendLogs|].
    destruct (negb _); [by rewrite enqueueThenFlush_sendLogs | done].
  - intros ->. by cbn.
Qed.

(** C9 (amended): the flush-duration tracker starts at 0 and computes in
    single precision.  After one sample [a] the exposed average is [a], for
    every [a].  After two samples [a] then [b] it is the [float] value of
    [(a*0.9f)+(b*0.1f)], each operation rounded, when [a] is positive; when
    [a] is zero (or negative) the stored value still reads as "no sample
    yet" and the second sample seeds the average again, which is then [b]. *)
Theorem flush_average_seed_and_blend (envA envB : Env) (s : State) :
  averageBufferFlushTime s = Float32.zero ->
  averageBufferFlushTime (flushFinish envA s) = flush_elapsed envA
  /\ averageBufferFlushTime (flushFinish envB (flushFinish envA s))
     = if Float32.leb (flush_elapsed envA) Float32.zero then flush_elapsed envB
       else Float32.add
              (Float32.mul (flush_elapsed envA) (Float32.ofRatio 9 10))
              (Float32.mul (flush_elapsed envB) (Float32.ofRatio 1 10)).
Proof.
  unfold averageBufferFlushTime. intros H0.
  assert (forall env st,
            m_logBufferFlushTime (flushFinish env st)
            = emaStep (Float32.ofRatio 9 10) (Float32.ofRatio 1 10)
                (m_logBufferFlushTime st) (flush_elapsed env)) as Hstep.
  { intros env st. unfold flushFinish. cbv zeta. by destruct (_ && _ && _). }
  rewrite !Hstep, H0.
  assert (forall e, emaStep (Float32.ofRatio 9 10) (Float32.ofRatio 1 10)
                      Float32.zero e = e) as Hseed by done.
  rewrite Hseed. split; [done|]. reflexivity.
Qed.

End Claims.

(** ** Witnesses *)

Lemma flushBuffer_writes_enqueued_lines_witness :
  writesOf (trace (flushBuffer "app" true quietEnv
                     (enqueueAll ["a"; "b"] (readyState ∅))).2)
  = writesOf (trace (readyState ∅))
    ++ ((fun line => (mainLogFileName "app", line +:+ QStr.newline)) <$> ["a"; "b"])
  /\ (["a"; "b"] <> [] ->
      m_logBuffer (flushBuffer "app" true quietEnv
                     (enqueueAll ["a"; "b"] (readyState ∅))).2
      = meanwhile quietEnv
      /\ exists base,
          fs (flushBuffer "app" true quietEnv
                (enqueueAll ["a"; "b"] (readyState ∅))).2 !! mainLogFileName "app"
          = Some (base +:+ joinLines ["a"; "b"]))
  /\ (["a"; "b"] = [] ->
      m_logBuffer (flushBuffer "app" true quietEnv
                     (enqueueAll ["a"; "b"] (readyState ∅))).2 = []).
Proof.
  apply (flushBuffer_writes_enqueued_lines "app" true quietEnv ["a"; "b"] (readyState ∅)).
  - reflexivity.
  - discriminate.
  - reflexivity.
  - reflexivity.
Defined.


Lemma touch_failure_sets_main_name_witness :
  (rotateLogFiles "app" readOnlyEnv (set_limits 10 1 (readyState crowdedDir))).1
  = false
  /\ m_logFileName
       (rotateLogFiles "app" readOnlyEnv (set_limits 10 1 (readyState crowdedDir))).2
     = mainLogFileName "app".
Proof.
  destruct (touch_failure_sets_main_name "app" readOnlyEnv
              (set_limits 10 1 (readyState crowdedDir)))
    as (H1 & H2 & _).
  - discriminate.
  - vm_compute. discriminate.
  - intros c Hc. vm_compute in Hc. injection Hc as <-. vm_compute. discriminate.
  - reflexivity.
  - split; [exact H1 | exact H2].
Defined.



Lemma sendLog_once_for_nonfatal_witness :
  sendLogsOf (trace (messageHandler "app" quietEnv infoNote
                       (setMinLevels QtDebugMsg QtFatalMsg (readyState ∅))))
  = [(lm_stamp infoNote, QtInfoMsg, lm_category infoNote, lm_msg infoNote)].
Proof.
  destruct (sendLog_once_for_nonfatal "app" quietEnv infoNote
              (setMinLevels QtDebugMsg QtFatalMsg (readyState ∅))) as (H & _).
  - discriminate.
  - reflexivity.
  - reflexivity.
  - exact H.
Defined.

Lemma flush_average_seed_and_blend_witness :
  averageBufferFlushTime
    (flushFinish (envElapsed (Float32.ofZ 2))
       (flushFinish (envElapsed (Float32.ofZ 1)) (readyState ∅)))
  = S754_finite false 9227469 (-23).
Proof.
  destruct (flush_average_seed_and_blend (envElapsed (Float32.ofZ 1))
              (envElapsed (Float32.ofZ 2)) (readyState ∅)) as (_ & H).
  - reflexivity.
  - rewrite H. vm_compute. reflexivity.
Defined.

(** ** Counterexamples *)

(** Counterexample to C8 as stated: a pass whose main-file creation fails
    returns failure with the main file name in [m_logFileName], not the
    empty name. *)
Lemma touch_failure_name_not_empty :
  (rotateLogFiles "app" readOnlyEnv (readyState ∅)).1 = false
  /\ m_logFileName (rotateLogFiles "app" readOnlyEnv (readyState ∅)).2 = "app_0.log"
  /\ m_logFileName (rotateLogFiles "app" readOnlyEnv (readyState ∅)).2 <> "".
Proof. repeat split; [vm_compute; reflexivity.. | vm_compute; discriminate]. Qed.



(** The window between the handler's enqueue and its flush: when the flush
    of another thread takes the buffer there, the handler's own
    [flushBuffer(true)] finds the buffer empty and returns at once.  The
    call writes and syncs nothing and reaches [qFatal]; the line is in the
    hands of the other thread. *)
Lemma fatal_line_taken_by_other_flush :
  writesOf (trace (messageHandler "app" racingEnv fatalNet (readyState ∅))) = []
  /\ syncsOf (trace (messageHandler "app" racingEnv fatalNet (readyState ∅))) = []
  /\ fs (messageHandler "app" racingEnv fatalNet (readyState ∅)) = ∅
  /\ m_logBuffer (messageHandler "app" racingEnv fatalNet (readyState ∅)) = []
  /\ exists text,
       last (trace (messageHandler "app" racingEnv fatalNet (readyState ∅)))
       = Some (EvFatal text).
Proof. repeat split; try (vm_compute; reflexivity). eexists. vm_compute. reflexivity. Qed.

(** Counterexample to C10 as stated: in a build with [NDEBUG] a Debug
    record is dropped on entry, so [sendLog] is not called although the
    record is not Fatal and no clean category is set. *)
Lemma release_debug_record_not_sent :
  lm_type debugNote <> QtFatalMsg
  /\ mayPersist (cfg releaseState) (lm_category debugNote) = true
  /\ sendLogsOf (trace (messageHandler "app" quietEnv debugNote releaseState)) = [].
Proof. repeat split; [discriminate | vm_compute; reflexivity..]. Qed.

(** Counterexample to C9 as stated, with a first sample of zero: after the
    samples 0 and 1 the average is 1, not the blend of 0 and 1, which is
    [0.1f]. *)
Lemma flush_average_zero_first_sample :
  averageBufferFlushTime
    (flushFinish (envElapsed (Float32.ofZ 1))
       (flushFinish (envElapsed Float32.zero) (readyState ∅)))
  = Float32.ofZ 1
  /\ Float32.add (Float32.mul Float32.zero (Float32.ofRatio 9 10))
                 (Float32.mul (Float32.ofZ 1) (Float32.ofRatio 1 10))
     = Float32.ofRatio 1 10
  /\ Float32.ofZ 1 <> Float32.ofRatio 1 10.
Proof. repeat split; [vm_compute; reflexivity.. | vm_compute; discriminate]. Qed.

(** ** Defects shown by evaluation *)

(** C3: [initLogging] rotates before it stores the caller's limits, so the
    rotation of the initialisation still works with the previous limit (10
    files).  Called with [maxFiles] 2 on a directory holding the five small
    files [app_0.log] .. [app_4.log], it ends with the limit 2 stored and
    all five files in place; a record handled afterwards leaves them there
    too, because the pass then reuses the current file without scanning.
    A scanning pass under the stored limit would keep two files. *)
Theorem initLogging_rotates_with_old_limits :
  (initLogging "app" "/opt/app" quietEnv "/var/log" 500 2 (100 * 1024)
     (initialState crowdedDir)).1 = true
  /\ m_maxLogFiles
       (cfg (initLogging "app" "/opt/app" quietEnv "/var/log" 500 2 (100 * 1024)
               (initialState crowdedDir)).2) = 2%N
  /\ fileName <$> entryInfoList "app"
       (fs (initLogging "app" "/opt/app" quietEnv "/var/log" 500 2 (100 * 1024)
              (initialState crowdedDir)).2)
     = ["app_0.log"; "app_1.log"; "app_2.log"; "app_3.log"; "app_4.log"]
  /\ length (entryInfoList "app"
       (fs (messageHandler "app" quietEnv infoNote
              (initLogging "app" "/opt/app" quietEnv "/var/log" 500 2 (100 * 1024)
                 (initialState crowdedDir)).2))) = 5
  /\ fileName <$> entryInfoList "app"
       (fs (rotateLogFiles "app" quietEnv
              (set_logFileName ""
                 (initLogging "app" "/opt/app" quietEnv "/var/log" 500 2 (100 * 1024)
                    (initialState crowdedDir)).2)).2)
     = ["app_0.log"; "app_1.log"].
Proof. repeat split; vm_compute; reflexivity. Qed.

(** C6: the obstacle check looks for one name only, the one numbered with
    the count of surviving files.  On the files [app_2.log], [app_4.log],
    [app_6.log] it finds no obstacle although the entry at position 1 is to
    be renamed to [app_2.log], the name of the entry at position 0 that has
    not been renamed yet.  No temporary rename happens, the rename of
    [app_4.log] fails on the existing target, and the file keeps its name. *)
Theorem rename_collision_not_detected :
  fileName <$> sortByPostfix (entryInfoList "app" gappedDir)
  = ["app_2.log"; "app_4.log"; "app_6.log"]
  /\ logName "app" 2 = "app_2.log"
  /\ obstacleFound "app" (sortByPostfix (entryInfoList "app" gappedDir)) = false
  /\ (rotateLogFiles "app" quietEnv (readyState gappedDir)).1 = true
  /\ trace (rotateLogFiles "app" quietEnv (readyState gappedDir)).2
     = [EvRename "app_6.log" "app_3.log";
        EvError (renamingError "app_4.log");
        EvRename "app_2.log" "app_1.log";
        EvTouch "app_0.log"]
  /\ fileName <$> entryInfoList "app"
       (fs (rotateLogFiles "app" quietEnv (readyState gappedDir)).2)
     = ["app_0.log"; "app_1.log"; "app_3.log"; "app_4.log"].
Proof. repeat split; vm_compute; reflexivity. Qed.

(** * Further properties *)

(** ** Handling records *)

Section HandlerProperties.

Variable appName : string.

Local Abbreviation main := (mainLogFileName appName).

(** X1: a record that the clean-category guard forbids to persist (its
    category is the clean category and [writeToFile] is false) leaves the
    buffer and the directory as they are and is not passed to the observer,
    at every level, Fatal included. *)
Theorem restricted_record_never_persisted (env : Env) (r : LogMessage) (s : State) :
  mayPersist (cfg s) (lm_category r) = false ->
  m_logBuffer (messageHandler appName env r s) = m_logBuffer s
  /\ fs (messageHandler appName env r s) = fs s
  /\ sendLogsOf (trace (messageHandler appName env r s)) = sendLogsOf (trace s)
  /\ writesOf (trace (messageHandler appName env r s)) = writesOf (trace s).
Proof.
  intros Hmay. unfold messageHandler.
  destruct (_ && _); [done|].
  destruct (decide (lm_type r = QtFatalMsg)).
  - unfold handleFatal. rewrite Hmay. cbn.
    by rewrite writesOf_app, sendLogsOf_app, !app_nil_r.
  - destruct (consoleOut_effect r s) as (Hc & Hb & Hf & evs & Ht & Hw & Hs & _).
    unfold persist. rewrite Hc, Hmay.
    by rewrite Hb, Hf, Ht, writesOf_app, sendLogsOf_app, Hw, Hs, !app_nil_r.
Qed.

(** X2: with buffering enabled, handling a record below Critical never
    touches the directory: the record is appended to the buffer when the
    handler accepts it for the file (not dropped by [NDEBUG], allowed by the
    clean-category guard, at or above the minimum file level), and the
    buffer is left as it is otherwise. *)
Theorem buffered_record_only_enqueued (env : Env) (r : LogMessage) (s : State) :
  m_logBufferEnabled (cfg s) = true ->
  lm_type r <> QtFatalMsg ->
  lm_type r <> QtCriticalMsg ->
  fs (messageHandler appName env r s) = fs s
  /\ m_logBuffer (messageHandler appName env r s)
     = m_logBuffer s
       ++ (if enqueues (cfg s) r then [formattedMessage r] else [])
  /\ writesOf (trace (messageHandler appName env r s)) = writesOf (trace s).
Proof.
  intros Hbuf Hnf Hnc. unfold messageHandler, enqueues.
  destruct (ndebug (cfg s) && _); cbn [negb andb]; [by rewrite app_nil_r|].
  destruct (decide (lm_type r = QtFatalMsg)); [done|].
  rewrite bool_decide_eq_false_2 by done. cbn [orb].
  destruct (consoleOut_effect r s) as (Hc & Hb & Hf & evs & Ht & Hw & _ & _).
  unfold persist. rewrite Hc.
  destruct (mayPersist (cfg s) (lm_category r)); cbn [andb].
  - destruct (levelGreaterOrEqual _ _); cbn [sendLog emit fs m_logBuffer trace].
    + destruct (decide (lm_type r = QtCriticalMsg)); [done|].
      rewrite Hbuf. cbn.
      by rewrite Hf, Hb, Ht, !writesOf_app, Hw, !app_nil_r.
    + by rewrite Hf, Hb, Ht, !writesOf_app, Hw, !app_nil_r.
  - by rewrite Hf, Hb, Ht, !writesOf_app, Hw, !app_nil_r.
Qed.


End HandlerProperties.

Lemma restricted_record_never_persisted_witness :
  fs (messageHandler "app" quietEnv fatalCI cleanState) = fs cleanState.
Proof.
  destruct (restricted_record_never_persisted "app" quietEnv fatalCI cleanState)
    as (_ & H & _).
  - reflexivity.
  - exact H.
Defined.

Lemma buffered_record_only_enqueued_witness :
  m_logBuffer (messageHandler "app" quietEnv infoNote
                 (set_logBufferEnabled true (readyState ∅)))
  = [formattedMessage infoNote].
Proof.
  destruct (buffered_record_only_enqueued "app" quietEnv infoNote
              (set_logBufferEnabled true (readyState ∅))) as (_ & H & _).
  - reflexivity.
  - discriminate.
  - discriminate.
  - exact H.
Defined.


(** ** Flushing *)

Section FlushProperties.

Variable appName : string.

Local Abbreviation main := (mainLogFileName appName).

Lemma writeLines_statics name lines s :
  m_maxBufferMessages (writeLines name lines s) = m_maxBufferMessages s
  /\ m_logRotationTime (writeLines name lines s) = m_logRotationTime s
  /\ m_logBufferFlushTime (writeLines name lines s) = m_logBufferFlushTime s
  /\ firstTime (writeLines name lines s) = firstTime s.
Proof.
  revert s; induction lines as [|l lines IH]; intros s; cbn; [done|].
  destruct (IH (emit (EvWrite name (l +:+ QStr.newline))
                  (set_fs (<[name := default "" (fs s !! name)
                                      +:+ (l +:+ QStr.newline)]> (fs s)) s)))
    as (-> & -> & -> & ->); done.
Qed.

Lemma writeLines_fs name lines s c :
  fs s !! name = Some c ->
  lines <> [] ->
  fs (writeLines name lines s) = <[name := c +:+ joinLines lines]> (fs s).
Proof.
  revert s c; induction lines as [|l lines IH]; intros s c Hc Hne; [done|].
  cbn [writeLines joinLines]. rewrite Hc. cbn [default].
  destruct lines as [|l' lines'].
  - cbn. by rewrite string_app_nil_r.
  - erewrite IH; [|cbn; apply lookup_insert_eq | done].
    cbn [fs emit set_fs]. rewrite insert_insert_eq.
    by rewrite !string_app_assoc.
Qed.

(** The pass that finds the current file in order does not look at the
    directory. *)
Lemma rotateLogFiles_reuse env s c :
  m_logDir (cfg s) <> "" ->
  m_logFileName s = main ->
  fs s !! main = Some c ->
  (contentSize c < m_maxLogFileSize (cfg s))%N ->
  rotateLogFiles appName env s = (true, rotateFinish appName env s).
Proof.
  intros Hdir Hname Hc Hsize. unfold rotateLogFiles.
  destruct (decide _); [done|]. cbv zeta.
  assert (checkCurrentName appName s = main) as Hcheck.
  { unfold checkCurrentName. rewrite Hname.
    destruct (decide (main = "")) as [Hm|_]; [by apply mainLogFileName_nonempty in Hm|].
    destruct (decide (main = main)); [|done]. rewrite Hc.
    by apply N.leb_gt in Hsize as ->. }
  rewrite Hcheck. cbn [m_logFileName set_logFileName].
  destruct (decide (main = "")) as [Hm|_]; [by apply mainLogFileName_nonempty in Hm|].
  f_equal. unfold rotateFinish. cbn. by rewrite <- Hname; destruct s.
Qed.

(** X4: [m_maxBufferMessages] is a high-water mark.  A flush never lowers
    it; with buffering enabled it is afterwards at least the number of
    lines the flush found in the buffer, and with buffering disabled it is
    left as it is. *)
Theorem high_water_mark_kept (force : bool) (env : Env) (s : State) :
  (m_maxBufferMessages s
   <= m_maxBufferMessages (flushBuffer appName force env s).2)%N
  /\ (m_logBufferEnabled (cfg s) = true ->
      (N.of_nat (length (m_logBuffer s))
       <= m_maxBufferMessages (flushBuffer appName force env s).2)%N)
  /\ (m_logBufferEnabled (cfg s) = false ->
      m_maxBufferMessages (flushBuffer appName force env s).2
      = m_maxBufferMessages s).
Proof.
  assert (m_maxBufferMessages (flushBuffer appName force env s).2
          = if m_logBufferEnabled (cfg s)
               && (m_maxBufferMessages s <? N.of_nat (length (m_logBuffer s)))%N
            then N.of_nat (length (m_logBuffer s)) else m_maxBufferMessages s) as ->.
  { unfold flushBuffer. cbv zeta.
    set (s0 := if m_logBufferEnabled (cfg s) then emit EvTimerStart s else s).
    assert (cfg s0 = cfg s /\ m_logBuffer s0 = m_logBuffer s
            /\ m_maxBufferMessages s0 = m_maxBufferMessages s) as (Hc0 & Hb0 & Hm0).
    { subst s0. by destruct (m_logBufferEnabled (cfg s)). }
    rewrite Hc0, Hb0, Hm0.
    destruct (m_logBuffer s) as [|l0 ls] eqn:Hbuf.
    { cbn [snd length N.of_nat]. rewrite Hm0.
      replace (m_maxBufferMessages s <? N.of_nat 0)%N with false
        by (symmetry; apply N.ltb_ge; lia).
      by rewrite andb_false_r. }
    set (s1 := if _ && _ then _ else s0).
    assert (m_maxBufferMessages s1
            = if m_logBufferEnabled (cfg s)
                 && (m_maxBufferMessages s <? N.of_nat (length (l0 :: ls)))%N
              then N.of_nat (length (l0 :: ls)) else m_maxBufferMessages s) as Hm1.
    { subst s1. by destruct (_ && _). }
    set (s2 := set_logBuffer (meanwhile env) s1).
    pose proof (frame_rotateLogFiles appName env s2) as Hrot.
    destruct (rotateLogFiles appName env s2) as [ok s3]. cbn [snd] in Hrot.
    destruct Hrot as [_ _ Hm3 _ _]. cbn in Hm3.
    rewrite <- Hm1, <- Hm3.
    destruct ok; cbn [negb]; [|done].
    destruct (open_fails env (m_logFileName s3)); cbn [snd].
    - unfold callErrorHandler. by destruct (m_errorHandler (cfg s3)).
    - unfold flushFinish. cbv zeta.
      destruct (_ && _ && _); cbn [m_maxBufferMessages emit set_logBufferFlushTime];
        destruct force; cbn [m_maxBufferMessages emit];
        by destruct (writeLines_statics (m_logFileName s3) (m_logBuffer s1)
                       (openAppend (m_logFileName s3) s3)) as (-> & _);
        unfold openAppend; destruct (fs s3 !! m_logFileName s3). }
  destruct (m_logBufferEnabled (cfg s)); cbn [andb].
  - destruct (_ <? _)%N eqn:Hlt.
    + apply N.ltb_lt in Hlt. split; [lia|]. split; [lia | done].
    + apply N.ltb_ge in Hlt. split; [lia|]. split; [lia | done].
  - split; [lia|]. split; done.
Qed.

(** One flush neither drops nor repeats a line: what has been written,
    followed by what the buffer holds, is afterwards what it was before,
    followed by the lines that arrived during the flush. *)
Lemma flushBuffer_conserves force env s :
  written (trace (flushBuffer appName force env s).2)
  ++ (terminated <$> m_logBuffer (flushBuffer appName force env s).2)
  = written (trace s) ++ (terminated <$> (m_logBuffer s ++ arrivals env s)).
Proof.
  pose proof (flushBuffer_writes appName force env s) as Hw.
  destruct (flushBuffer_effect appName force env s) as [_ He].
  unfold written, arrivals. rewrite Hw.
  destruct (flushBuffer appName force env s) as [r s']. cbn [fst snd] in *.
  destruct r; cbn [flushEffect] in He.
  - destruct He as (-> & -> & _). by rewrite !app_nil_r.
  - destruct He as (Hne & -> & _). rewrite !app_nil_r.
    by destruct (m_logBuffer s).
  - destruct He as (Hne & -> & _). rewrite !app_nil_r.
    by destruct (m_logBuffer s).
  - destruct He as (Hne & -> & _).
    rewrite !fmap_app, <- list_fmap_compose, <- app_assoc.
    by destruct (m_logBuffer s).
Qed.

(** X5: over any run of rounds (enqueue some lines, attempt a flush), with
    failures and successes mixed in any way, no line is lost, repeated or
    reordered: the data written so far followed by the buffer content is
    exactly the earlier data, the earlier buffer content and every line that
    arrived during the run, in arrival order. *)
Theorem rounds_conserve_lines
    (rounds : list (list string * bool * Env)) (s : State) :
  written (trace (runRounds appName rounds s).1)
  ++ (terminated <$> m_logBuffer (runRounds appName rounds s).1)
  = written (trace s)
    ++ (terminated <$> (m_logBuffer s ++ (runRounds appName rounds s).2)).
Proof.
  revert s; induction rounds as [|[[lines force] env] rest IH]; intros s.
  - cbn. by rewrite app_nil_r.
  - cbn [runRounds]. specialize (IH (flushBuffer appName force env (enqueueAll lines s)).2).
    destruct (runRounds appName rest _) as [s' later]. cbn [fst snd] in *.
    rewrite IH, !fmap_app, app_assoc.
    rewrite flushBuffer_conserves.
    destruct (enqueueAll_frame lines s) as (_ & -> & _).
    rewrite enqueueAll_buffer, !fmap_app. by repeat rewrite <- app_assoc.
Qed.

(** X6: when the current file is the main file, exists and is below the
    size limit, a flush appends to it and does nothing else to the
    directory: the file keeps its content as a prefix, gains the buffered
    lines, and every other file is left as it is. *)
Theorem flush_appends_to_current_file
    (force : bool) (env : Env) (s : State) (c : string) :
  m_logBuffer s <> [] ->
  m_logDir (cfg s) <> "" ->
  m_logFileName s = main ->
  fs s !! main = Some c ->
  (contentSize c < m_maxLogFileSize (cfg s))%N ->
  open_fails env main = false ->
  (flushBuffer appName force env s).1 = FlushWritten
  /\ fs (flushBuffer appName force env s).2
     = <[main := c +:+ joinLines (m_logBuffer s)]> (fs s).
Proof.
  intros Hne Hdir Hname Hc Hsize Hopen.
  unfold flushBuffer. cbv zeta.
  set (s0 := if m_logBufferEnabled (cfg s) then emit EvTimerStart s else s).
  assert (cfg s0 = cfg s /\ m_logBuffer s0 = m_logBuffer s /\ fs s0 = fs s
          /\ m_logFileName s0 = m_logFileName s) as (Hc0 & Hb0 & Hf0 & Hn0).
  { subst s0. by destruct (m_logBufferEnabled (cfg s)). }
  rewrite Hb0. destruct (m_logBuffer s) as [|l0 ls] eqn:Hbuf; [done|].
  set (s1 := if _ && _ then _ else s0).
  assert (cfg s1 = cfg s /\ m_logBuffer s1 = l0 :: ls /\ fs s1 = fs s
          /\ m_logFileName s1 = m_logFileName s) as (Hc1 & Hb1 & Hf1 & Hn1).
  { subst s1. destruct (_ && _); cbn; repeat split; congruence. }
  set (s2 := set_logBuffer (meanwhile env) s1).
  rewrite (rotateLogFiles_reuse env s2 c);
    [| cbn; congruence | cbn; congruence | cbn; congruence | cbn; congruence].
  cbn [negb]. rewrite rotateFinish_name, Hopen. cbn [fst snd]. split; [done|].
  assert (fs (rotateFinish appName env s2) = fs s) as Hf3.
  { unfold rotateFinish. cbv zeta. destruct (firstTime s2); destruct (_ && _ && _ && _);
      cbn; congruence. }
  assert (fs (openAppend main (rotateFinish appName env s2)) = fs s) as Hfo.
  { unfold openAppend. rewrite Hf3, Hc. done. }
  assert (forall st, fs (flushFinish env st) = fs st) as Hff.
  { intros st. unfold flushFinish. cbv zeta. by destruct (_ && _ && _). }
  rewrite Hff.
  assert (forall st, fs (if force then emit (EvSync main) st else st) = fs st) as Hfs
    by (intros st; by destruct force).
  rewrite Hfs, Hb1.
  rewrite (writeLines_fs main (l0 :: ls) _ c); [by rewrite Hfo | by rewrite Hfo | done].
Qed.

End FlushProperties.

Lemma high_water_mark_kept_witness :
  (N.of_nat (length (m_logBuffer
                       (enqueueAll ["a"; "b"] (set_logBufferEnabled true (readyState ∅)))))
   <= m_maxBufferMessages
        (flushBuffer "app" false quietEnv
           (enqueueAll ["a"; "b"] (set_logBufferEnabled true (readyState ∅)))).2)%N.
Proof.
  destruct (high_water_mark_kept "app" false quietEnv
              (enqueueAll ["a"; "b"] (set_logBufferEnabled true (readyState ∅))))
    as (_ & H & _).
  apply H. reflexivity.
Defined.

Lemma flush_appends_to_current_file_witness :
  fs (flushBuffer "app" false quietEnv
        (enqueueAll ["x"]
           (set_logFileName "app_0.log" (readyState {["app_0.log" := "old"]})))).2
  = <["app_0.log" := "old" +:+ joinLines ["x"]]> {["app_0.log" := "old"]}.
Proof.
  destruct (flush_appends_to_current_file "app" false quietEnv
              (enqueueAll ["x"]
                 (set_logFileName "app_0.log" (readyState {["app_0.log" := "old"]})))
              "old") as (_ & H).
  - discriminate.
  - discriminate.
  - reflexivity.
  - reflexivity.
  - reflexivity.
  - reflexivity.
  - exact H.
Defined.

(** ** Initialisation *)

(** X7: the writability probe returns true exactly when the directory is
    usable and the probe file [test.tmp] can be created and removed.  It
    never touches another file, and after a successful probe no [test.tmp]
    is left, not even a stale one that was there before. *)
Theorem ensureDirectoryWritable_probe (env : Env) (s : State) :
  (ensureDirectoryWritable env s).1
  = dir_usable env && negb (create_fails env "test.tmp")
    && negb (remove_fails env "test.tmp")
  /\ (forall name, name <> "test.tmp" ->
        fs (ensureDirectoryWritable env s).2 !! name = fs s !! name)
  /\ ((ensureDirectoryWritable env s).1 = true ->
      fs (ensureDirectoryWritable env s).2 !! "test.tmp" = None).
Proof.
  unfold ensureDirectoryWritable.
  destruct (dir_usable env); cbn [negb andb]; [|done].
  destruct (fs s !! "test.tmp") as [c|] eqn:Hc.
  - assert (fileRemove env "test.tmp" s
            = if remove_fails env "test.tmp" then (false, s)
              else (true, emit (EvRemove "test.tmp")
                            (set_fs (delete "test.tmp" (fs s)) s))) as ->
      by (unfold fileRemove; by rewrite Hc).
    destruct (remove_fails env "test.tmp") eqn:Hr; cbn [negb fst snd].
    + rewrite andb_false_r. done.
    + destruct (create_fails env "test.tmp"); cbn [negb andb fst snd].
      * split; [done|]. split; [|done].
        intros name Hne. cbn [fs emit set_fs].
           by repeat first [rewrite lookup_delete_ne by done | rewrite lookup_insert_ne by done].
      * unfold fileRemove. cbn [fs emit set_fs].
        rewrite lookup_insert_eq, Hr. cbn.
        split; [done|]. split.
        -- intros name Hne. cbn [fs emit set_fs].
           by repeat first [rewrite lookup_delete_ne by done | rewrite lookup_insert_ne by done].
        -- intros _. cbn [fs emit set_fs]. apply lookup_delete_eq.
  - cbn [negb fst snd].
    destruct (create_fails env "test.tmp"); cbn [negb andb fst snd]; [done|].
    unfold fileRemove. cbn [fs emit set_fs]. rewrite lookup_insert_eq.
    destruct (remove_fails env "test.tmp"); cbn.
    + split; [done|]. split; [|done].
      intros name Hne. cbn [fs emit set_fs].
           by repeat first [rewrite lookup_delete_ne by done | rewrite lookup_insert_ne by done].
    + split; [done|]. split.
      * intros name Hne. cbn [fs emit set_fs].
           by repeat first [rewrite lookup_delete_ne by done | rewrite lookup_insert_ne by done].
      * intros _. cbn [fs emit set_fs]. apply lookup_delete_eq.
Qed.

Lemma ensureDirectoryWritable_probe_witness :
  (ensureDirectoryWritable quietEnv (readyState gappedDir)).1 = true
  /\ fs (ensureDirectoryWritable quietEnv (readyState gappedDir)).2 !! "app_2.log"
     = gappedDir !! "app_2.log"
  /\ fs (ensureDirectoryWritable quietEnv (readyState gappedDir)).2 !! "test.tmp" = None.
Proof.
  destruct (ensureDirectoryWritable_probe quietEnv (readyState gappedDir))
    as (H1 & H2 & H3).
  split; [exact H1|]. split.
  - apply H2. discriminate.
  - apply H3. reflexivity.
Defined.

Lemma frame_ensureDirectoryWritable env s :
  RotFrame s (ensureDirectoryWritable env s).2.
Proof.
  unfold ensureDirectoryWritable.
  destruct (dir_usable env); cbn [negb]; [|reflexivity].
  set (r1 := match fs s !! "test.tmp" with
             | Some _ => fileRemove env "test.tmp" s
             | None => (true, s)
             end).
  assert (RotFrame s r1.2) as H1.
  { subst r1. destruct (fs s !! "test.tmp"); [apply frame_fileRemove | reflexivity]. }
  destruct r1 as [ok1 s1]. cbn [snd] in H1.
  destruct ok1; cbn [negb]; [|done].
  destruct (create_fails env "test.tmp"); [done|].
  etrans; [exact H1|]. etrans; [|apply frame_fileRemove].
  etrans; [apply frame_set_fs | by apply frame_emit].
Qed.

Lemma normalizePath_nonempty path : normalizePath path <> "".
Proof.
  unfold normalizePath. cbv zeta.
  destruct (collapseSlashes path) as [|a t]; [vm_compute; discriminate|].
  by destruct (QStr.endsWith _ _).
Qed.

Section InitProperties.

Variables appName appDirPath : string.

Local Abbreviation main := (mainLogFileName appName).

(** The directory path that [initLogging] stores. *)
Lemma initLogging_dir_nonempty logDir :
  (if decide (logDir = "") then appDirPath +:+ "/" else normalizePath logDir) <> "".
Proof.
  destruct (decide _); [by destruct appDirPath | apply normalizePath_nonempty].
Qed.

(** X8: when [initLogging] succeeds, the stored limits are the caller's
    values clamped from below (2 files, 100 KiB), buffering is enabled
    exactly for a flush time of 1000 ms or more, the current file is the
    main file, the buffer and the other settings are as before, and the
    last thing done is installing the handler, followed by the timer start
    when buffering is enabled. *)
Theorem initLogging_success (env : Env) (logDir : string)
    (flushTime maxFiles maxFileSize : N) (s s' : State) :
  initLogging appName appDirPath env logDir flushTime maxFiles maxFileSize s
  = (true, s') ->
  m_maxLogFiles (cfg s') = N.max 2 maxFiles
  /\ m_maxLogFileSize (cfg s') = N.max (100 * 1024) maxFileSize
  /\ m_logBufferEnabled (cfg s') = (1000 <=? flushTime)%N
  /\ m_logDir (cfg s') <> ""
  /\ m_logFileName s' = main
  /\ m_logBuffer s' = m_logBuffer s
  /\ m_minOutLevel (cfg s') = m_minOutLevel (cfg s)
  /\ m_minOutFileLevel (cfg s') = m_minOutFileLevel (cfg s)
  /\ m_cleanLogCategory (cfg s') = m_cleanLogCategory (cfg s)
  /\ m_cleanToFile (cfg s') = m_cleanToFile (cfg s)
  /\ exists evs,
      trace s' = trace s ++ evs ++ [EvInstallHandler]
                 ++ (if (1000 <=? flushTime)%N then [EvTimerStart] else [])
      /\ forallb rotationEvent evs = true.
Proof.
  unfold initLogging. cbv zeta.
  pose proof (frame_ensureDirectoryWritable env s) as H0.
  destruct (ensureDirectoryWritable env s) as [w s0]. cbn [snd] in H0.
  destruct w; cbn [negb]; [|discriminate].
  set (dir := if decide (logDir = "") then _ else _).
  pose proof (frame_rotateLogFiles appName env (set_logDir dir s0)) as H2.
  destruct (rotateLogFiles appName env (set_logDir dir s0)) as [ok s2] eqn:Erot.
  cbn [snd] in H2. destruct ok; cbn [negb]; [|discriminate].
  apply rotateLogFiles_true in Erot as [Hname _].
  destruct H0 as [Hc0 Hb0 _ _ (e0 & Ht0 & He0)].
  destruct H2 as [Hc2 Hb2 _ _ (e2 & Ht2 & He2)].
  cbn in Hc2, Hb2, Ht2.
  intros [= <-].
  assert (N.max 2 maxFiles = if (maxFiles <? 2)%N then 2%N else maxFiles) as ->.
  { destruct (_ <? _)%N eqn:E; [apply N.ltb_lt in E | apply N.ltb_ge in E]; lia. }
  assert (N.max (100 * 1024) maxFileSize
          = if (maxFileSize <? 100 * 1024)%N then (100 * 1024)%N else maxFileSize) as ->.
  { destruct (_ <? _)%N eqn:E; [apply N.ltb_lt in E | apply N.ltb_ge in E]; lia. }
  destruct (1000 <=? flushTime)%N; cbn; rewrite ?Hc2; cbn; rewrite ?Hc0;
    (repeat split; try done; try congruence;
     [apply initLogging_dir_nonempty
     | exists (e0 ++ e2); split;
       [rewrite Ht2, Ht0; by repeat rewrite <- app_assoc
       | by rewrite forallb_app, He0, He2]]).
Qed.

(** X9: when [initLogging] fails, the message handler is not installed and
    the timer is not started, and the limits, the buffering switch and the
    buffer are as before.  The failure comes from the probe of the
    directory or from the creation of the main file: the stored directory
    path is never empty, so the rotation cannot fail for a missing path. *)
Theorem initLogging_failure (env : Env) (logDir : string)
    (flushTime maxFiles maxFileSize : N) (s s' : State) :
  initLogging appName appDirPath env logDir flushTime maxFiles maxFileSize s
  = (false, s') ->
  m_maxLogFiles (cfg s') = m_maxLogFiles (cfg s)
  /\ m_maxLogFileSize (cfg s') = m_maxLogFileSize (cfg s)
  /\ m_logBufferEnabled (cfg s') = m_logBufferEnabled (cfg s)
  /\ m_logBuffer s' = m_logBuffer s
  /\ (exists evs, trace s' = trace s ++ evs /\ forallb rotationEvent evs = true)
  /\ ((ensureDirectoryWritable env s).1 = false
      \/ create_fails env main = true).
Proof.
  unfold initLogging. cbv zeta.
  pose proof (frame_ensureDirectoryWritable env s) as H0.
  destruct (ensureDirectoryWritable env s) as [w s0]. cbn [fst snd] in *.
  destruct w; cbn [negb].
  - set (dir := if decide (logDir = "") then _ else _).
    pose proof (frame_rotateLogFiles appName env (set_logDir dir s0)) as H2.
    destruct (rotateLogFiles appName env (set_logDir dir s0)) as [ok s2] eqn:Erot.
    cbn [snd] in H2. destruct ok; cbn [negb]; [discriminate|].
    intros [= <-].
    destruct H0 as [Hc0 Hb0 _ _ (e0 & Ht0 & He0)].
    destruct H2 as [Hc2 Hb2 _ _ (e2 & Ht2 & He2)].
    cbn in Hc2, Hb2, Ht2. rewrite Hc2. cbn. rewrite Hc0.
    repeat split; try congruence.
    + exists (e0 ++ e2). split; [rewrite Ht2, Ht0; by rewrite app_assoc|].
      by rewrite forallb_app, He0, He2.
    + right.
      assert (m_logDir (cfg (set_logDir dir s0)) <> "") as Hdir
        by apply initLogging_dir_nonempty.
      destruct (rotateLogFiles_false _ _ _ _ Hdir Erot) as (s3 & H3).
      by apply createMainFile_false in H3 as [H3 _].
  - intros [= <-].
    assert (RotFrame s0 (callErrorHandler "Log directory is not writable" s0)) as H1
      by apply frame_callErrorHandler.
    destruct (RotFrame_trans _ _ _ H0 H1) as [Hc Hb _ _ Ht].
    rewrite Hc. repeat split; try done. by left.
Qed.

End InitProperties.

Lemma initLogging_success_witness :
  m_maxLogFiles
    (cfg (initLogging "app" "/opt/app" quietEnv "/var/log" 5000 0 0
            (initialState ∅)).2) = N.max 2 0
  /\ m_logBufferEnabled
       (cfg (initLogging "app" "/opt/app" quietEnv "/var/log" 5000 0 0
               (initialState ∅)).2) = true.
Proof.
  destruct (initLogging_success "app" "/opt/app" quietEnv "/var/log" 5000 0 0
              (initialState ∅)
              (initLogging "app" "/opt/app" quietEnv "/var/log" 5000 0 0
                 (initialState ∅)).2) as (H1 & _ & H3 & _).
  - vm_compute. reflexivity.
  - split; [exact H1 | exact H3].
Defined.

Lemma initLogging_failure_witness :
  m_logBufferEnabled
    (cfg (initLogging "app" "/opt/app" readOnlyEnv "/var/log" 5000 3 0
            (initialState ∅)).2)
  = m_logBufferEnabled (cfg (initialState ∅)).
Proof.
  destruct (initLogging_failure "app" "/opt/app" readOnlyEnv "/var/log" 5000 3 0
              (initialState ∅)
              (initLogging "app" "/opt/app" readOnlyEnv "/var/log" 5000 3 0
                 (initialState ∅)).2) as (_ & _ & H & _).
  - vm_compute. reflexivity.
  - exact H.
Defined.

(** ** Path normalisation *)

Lemma append_cons a r t : String a r +:+ t = String a (r +:+ t).
Proof. reflexivity. Qed.

Lemma collapseSlashes_two_steps path :
  collapseSlashes path = collapseRuns (replaceBackslashes path).
Proof.
  induction path as [|a rest IH]; [done|].
  cbn [collapseSlashes replaceBackslashes collapseRuns]. by rewrite IH.
Qed.

Lemma collapseSlashes_no_backslash path : hasBackslash (collapseSlashes path) = false.
Proof.
  induction path as [|a rest IH]; [done|]. cbn [collapseSlashes].
  destruct (collapseSlashes rest) as [|b t].
  - cbn. destruct (decide (a = "\"%char)) as [->|Hne]; [done|].
    by rewrite bool_decide_eq_false_2.
  - destruct (decide (_ /\ _)); [done|].
    cbn [hasBackslash] in *. rewrite IH, orb_false_r.
    destruct (decide (a = "\"%char)) as [->|Hne]; [done|].
    by rewrite bool_decide_eq_false_2.
Qed.

Lemma collapseSlashes_no_double_slash path :
  hasDoubleSlash (collapseSlashes path) = false.
Proof.
  induction path as [|a rest IH]; [done|]. cbn [collapseSlashes].
  destruct (collapseSlashes rest) as [|b t]; [done|].
  destruct (decide (_ /\ _)) as [|Hn]; [done|].
  cbn [hasDoubleSlash] in *. rewrite IH, orb_false_r.
  apply andb_false_iff.
  destruct (decide ((if decide (a = "\"%char) then "/"%char else a) = "/"%char)) as [E|E];
    [right | left]; apply bool_decide_eq_false_2; [|done].
  intros ->. by apply Hn.
Qed.

Lemma collapseSlashes_fixed path :
  hasBackslash path = false -> hasDoubleSlash path = false ->
  collapseSlashes path = path.
Proof.
  induction path as [|a rest IH]; [done|]. intros Hb Hd.
  cbn [hasBackslash] in Hb. apply orb_false_iff in Hb as [Ha Hb].
  apply bool_decide_eq_false_1 in Ha.
  cbn [collapseSlashes]. destruct (decide (a = "\"%char)); [done|].
  rewrite IH; [|done|by destruct rest as [|b t]; [|apply orb_false_iff in Hd as [_ ?]]].
  destruct rest as [|b t]; [done|].
  cbn [hasDoubleSlash] in Hd. apply orb_false_iff in Hd as [Hd _].
  destruct (decide (_ /\ _)) as [[-> ->]|]; [done | done].
Qed.

Lemma lastChar_cons b t : exists c, lastChar (String b t) = Some c.
Proof.
  revert b; induction t as [|c t IH]; intros b; [by exists b|].
  destruct (IH c) as (d & Hd). exists d. by rewrite <- Hd.
Qed.

Lemma rev_app_firstChar s acc :
  firstChar (String.rev_app s acc)
  = match lastChar s with Some c => Some c | None => firstChar acc end.
Proof.
  revert acc; induction s as [|a rest IH]; intros acc; [done|].
  cbn [String.rev_app]. rewrite IH.
  destruct rest as [|b t]; [done|].
  destruct (lastChar_cons b t) as (c & Hc).
  change (lastChar (String a (String b t))) with (lastChar (String b t)).
  by rewrite Hc.
Qed.

Lemma endsWith_slash s :
  QStr.endsWith "/" s = bool_decide (lastChar s = Some "/"%char).
Proof.
  unfold QStr.endsWith, String.rev.
  pose proof (rev_app_firstChar s "") as H.
  change (String.rev_app "/" "") with "/".
  destruct (String.rev_app s "") as [|c t]; cbn [firstChar] in H.
  - destruct (lastChar s); [done|]. by rewrite bool_decide_eq_false_2.
  - assert (lastChar s = Some c) as -> by (by destruct (lastChar s)).
    change (String.prefix "/" (String c t))
      with (if ascii_dec "/" c then String.prefix "" t else false).
    destruct (ascii_dec "/" c) as [<-|Hne].
    + rewrite bool_decide_eq_true_2; [by destruct t | done].
    + rewrite bool_decide_eq_false_2; [done | congruence].
Qed.

Lemma lastChar_app_slash s : lastChar (s +:+ "/") = Some "/"%char.
Proof.
  induction s as [|a rest IH]; [done|]. rewrite append_cons.
  cbn [lastChar]. rewrite IH. by destruct rest.
Qed.

Lemma hasBackslash_app_slash s : hasBackslash (s +:+ "/") = hasBackslash s.
Proof.
  induction s as [|a rest IH]; [done|]. rewrite append_cons.
  cbn [hasBackslash]. by rewrite IH.
Qed.

Lemma hasDoubleSlash_cons a b r :
  hasDoubleSlash (String a (String b r))
  = (bool_decide (a = "/"%char) && bool_decide (b = "/"%char))
    || hasDoubleSlash (String b r).
Proof. reflexivity. Qed.

Lemma hasDoubleSlash_app_slash s :
  lastChar s <> Some "/"%char ->
  hasDoubleSlash (s +:+ "/") = hasDoubleSlash s.
Proof.
  induction s as [|a rest IH]; [done|]. intros Hlast. rewrite append_cons.
  destruct rest as [|b t].
  - cbn in *. rewrite bool_decide_eq_false_2; [done | congruence].
  - rewrite append_cons. rewrite append_cons in IH.
    rewrite !hasDoubleSlash_cons, IH; [done|].
    cbn [lastChar] in Hlast. by destruct t.
Qed.

(** X10: [normalizePath] does its two replacements one after the other,
    and its result ends with a slash, contains no backslash and no two
    slashes in a row; normalising a normalised path changes nothing. *)
Theorem normalizePath_shape (path : string) :
  collapseSlashes path = collapseRuns (replaceBackslashes path)
  /\ QStr.endsWith "/" (normalizePath path) = true
  /\ hasBackslash (normalizePath path) = false
  /\ hasDoubleSlash (normalizePath path) = false
  /\ normalizePath (normalizePath path) = normalizePath path.
Proof.
  split; [apply collapseSlashes_two_steps|].
  assert (QStr.endsWith "/" (normalizePath path) = true
          /\ hasBackslash (normalizePath path) = false
          /\ hasDoubleSlash (normalizePath path) = false) as (He & Hb & Hd).
  { unfold normalizePath. cbv zeta.
    pose proof (collapseSlashes_no_backslash path) as Hb.
    pose proof (collapseSlashes_no_double_slash path) as Hd.
    destruct (QStr.endsWith "/" (collapseSlashes path)) eqn:E; [done|].
    rewrite endsWith_slash in E. apply bool_decide_eq_false_1 in E.
    rewrite endsWith_slash, lastChar_app_slash, hasBackslash_app_slash,
      hasDoubleSlash_app_slash by done.
    by rewrite bool_decide_eq_true_2. }
  repeat split; try done.
  unfold normalizePath at 1. cbv zeta.
  rewrite collapseSlashes_fixed by done. by rewrite He.
Qed.

(** ** The directory scan leaves the other statics alone *)

#[global] Instance ScanFrame_refl : Reflexive ScanFrame.
Proof.
  intros s; split; try reflexivity.
  exists []; split; [by rewrite app_nil_r | done].
Qed.

#[global] Instance ScanFrame_trans : Transitive ScanFrame.
Proof.
  intros s1 s2 s3 [c1 b1 m1 t1 r1 f1 (e1 & E1 & F1)] [c2 b2 m2 t2 r2 f2 (e2 & E2 & F2)].
  split; try congruence.
  exists (e1 ++ e2); split.
  - by rewrite E2, E1, app_assoc.
  - rewrite forallb_app, F1, F2; done.
Qed.

Lemma scan_emit e s : fileEvent e = true -> ScanFrame s (emit e s).
Proof.
  intros He; split; try reflexivity.
  exists [e]; split; [done | by cbn; rewrite He].
Qed.

Lemma scan_set_fs m s : ScanFrame s (set_fs m s).
Proof.
  split; try reflexivity. exists []; split; [by cbn; rewrite app_nil_r | done].
Qed.

Lemma scan_set_logFileName n s : ScanFrame s (set_logFileName n s).
Proof.
  split; try reflexivity. exists []; split; [by cbn; rewrite app_nil_r | done].
Qed.

Lemma scan_callErrorHandler msg s : ScanFrame s (callErrorHandler msg s).
Proof.
  unfold callErrorHandler. destruct (m_errorHandler (cfg s)); [|reflexivity].
  by apply scan_emit.
Qed.

Lemma scan_fileRemove env name s : ScanFrame s (fileRemove env name s).2.
Proof.
  unfold fileRemove. destruct (fs s !! name); [|reflexivity].
  destruct (remove_fails env name); cbn; [reflexivity|].
  etrans; [apply scan_set_fs | by apply scan_emit].
Qed.

Lemma scan_fileRename env old new s : ScanFrame s (fileRename env old new s).2.
Proof.
  unfold fileRename.
  destruct (fs s !! old); [|reflexivity].
  destruct (fs s !! new); [reflexivity|].
  destruct (rename_fails env old new); cbn; [reflexivity|].
  etrans; [apply scan_set_fs | by apply scan_emit].
Qed.

(** Splits the pair returned by a call on which a scan fact [H] is known. *)
Ltac scan_call H :=
  let ok := fresh "ok" in
  let st := fresh "st" in
  let E := fresh "E" in
  match type of H with
  | ScanFrame _ (?call).2 =>
      destruct call as [ok st] eqn:E; cbn [fst snd] in H |- *
  end.

Section ScanFrames.

Variable appName : string.

Local Abbreviation main := (mainLogFileName appName).

Lemma scan_createMainFile env s : ScanFrame s (createMainFile appName env s).2.
Proof.
  unfold createMainFile, logFileTouch.
  destruct (create_fails env main); cbn.
  - etrans; [apply scan_callErrorHandler | apply scan_set_logFileName].
  - etrans; [apply scan_set_fs | by apply scan_emit].
Qed.

Lemma scan_dropNonNumeric env l s : ScanFrame s (dropNonNumeric env l s).2.
Proof.
  induction l as [|f l IH]; cbn; [reflexivity|].
  scan_call IH.
  destruct (QStr.toUInt (postfix (fileName f))); cbn; [done|].
  pose proof (scan_fileRemove env (fileName f) st) as H.
  scan_call H. destruct ok0; cbn.
  - by etrans.
  - etrans; [exact IH|]. etrans; [exact H | apply scan_callErrorHandler].
Qed.

Lemma scan_removeLastFile env l s : ScanFrame s (removeLastFile env l s).2.
Proof.
  unfold removeLastFile. destruct (last l) as [f|]; [|reflexivity].
  pose proof (scan_fileRemove env (fileName f) s) as H.
  scan_call H. destruct ok; cbn; [done|].
  etrans; [exact H | apply scan_callErrorHandler].
Qed.

Lemma scan_removeRedundant env fuel l s :
  ScanFrame s (removeRedundant env fuel l s).2.
Proof.
  revert l s; induction fuel as [|fuel IH]; intros l s; cbn; [reflexivity|].
  destruct (_ <? _)%N; [|reflexivity].
  pose proof (scan_removeLastFile env l s) as H.
  scan_call H. etrans; [exact H | apply IH].
Qed.

Lemma scan_tempRename env l s : ScanFrame s (tempRename env l s).2.
Proof.
  revert s; induction l as [|f l IH]; intros s; cbn; [reflexivity|].
  pose proof (scan_fileRename env (fileName f) (fileName f +:+ ".temp") s) as H.
  scan_call H.
  match goal with |- ScanFrame _ (let '(_, _) := tempRename env l ?s2 in _).2 =>
    specialize (IH s2); assert (ScanFrame s s2) as H2
  end.
  { destruct ok; [done|]. etrans; [exact H | apply scan_callErrorHandler]. }
  scan_call IH. by etrans.
Qed.

Lemma scan_linearRename env i l s : ScanFrame s (linearRename appName env i l s).2.
Proof.
  revert i s; induction l as [|f l IH]; intros i s; cbn; [reflexivity|].
  specialize (IH (S i) s). scan_call IH.
  destruct (decide _); cbn; [done|].
  pose proof (scan_fileRename env (fileName f) (logName appName (S i)) st) as H.
  scan_call H. destruct ok0; cbn.
  - by etrans.
  - etrans; [exact IH|]. etrans; [exact H | apply scan_callErrorHandler].
Qed.

Lemma scan_makeNewFile env l s : ScanFrame s (makeNewFile appName env l s).2.
Proof.
  unfold makeNewFile.
  assert (ScanFrame s
            (if (m_maxLogFiles (cfg s) <=? N.of_nat (length l))%N
             then removeLastFile env l s else (l, s)).2) as H1.
  { destruct (_ <=? _)%N; [apply scan_removeLastFile | reflexivity]. }
  scan_call H1.
  assert (ScanFrame st
            (if obstacleFound appName ok then tempRename env ok st else (ok, st)).2) as H2.
  { destruct (obstacleFound _ _); [apply scan_tempRename | reflexivity]. }
  scan_call H2.
  pose proof (scan_linearRename env 0 ok0 st0) as H3. scan_call H3.
  etrans; [exact H1|]. etrans; [exact H2|]. etrans; [exact H3|].
  apply scan_createMainFile.
Qed.

Lemma scan_scanAndRotate env s : ScanFrame s (scanAndRotate appName env s).2.
Proof.
  unfold scanAndRotate.
  pose proof (scan_dropNonNumeric env (entryInfoList appName (fs s)) s) as H0.
  scan_call H0.
  destruct (sortByPostfix ok) as [|f0 rest].
  - etrans; [exact H0 | apply scan_createMainFile].
  - pose proof (scan_removeRedundant env (length (f0 :: rest)) (f0 :: rest) st) as H1.
    scan_call H1.
    destruct ok0 as [|first others]; cbn; [by etrans|].
    destruct (_ || _); cbn; [|by etrans].
    etrans; [exact H0|]. etrans; [exact H1 | apply scan_makeNewFile].
Qed.

(** The state in which [rotateLogFiles] reaches its telemetry, or in which
    it returns early. *)
Lemma rotateLogFiles_split env s :
  exists s2,
    ScanFrame s s2
    /\ rotateLogFiles appName env s
       = if (rotateLogFiles appName env s).1
         then (true, rotateFinish appName env s2) else (false, s2).
Proof.
  unfold rotateLogFiles. destruct (decide _).
  - eexists; split; [apply scan_callErrorHandler | done].
  - cbv zeta. set (s1 := set_logFileName _ s).
    assert (ScanFrame s s1) as H1 by apply scan_set_logFileName.
    destruct (decide (m_logFileName s1 = "")).
    + pose proof (scan_scanAndRotate env s1) as H2.
      destruct (scanAndRotate appName env s1) as [[] s2]; cbn [snd fst] in *;
        exists s2; (split; [by etrans | done]).
    + exists s1. by split.
Qed.

(** X11: the rotation average follows the successful passes only, and not
    the first of them.  A failed pass and the first successful pass leave
    it as it is; any later successful pass with duration [d] makes it [d]
    when the stored value [avg] is not positive and the [float] value of
    [(avg*0.8f)+(d*0.2f)], each operation rounded in single precision,
    otherwise.  The first-call marker is cleared by the first successful
    pass. *)
Theorem rotation_average_skips_first_pass (env : Env) (s : State) :
  m_logRotationTime (rotateLogFiles appName env s).2
  = (if (rotateLogFiles appName env s).1 && negb (firstTime s)
     then if Float32.leb (m_logRotationTime s) Float32.zero
          then rotate_elapsed env
          else Float32.add
                 (Float32.mul (m_logRotationTime s) (Float32.ofRatio 8 10))
                 (Float32.mul (rotate_elapsed env) (Float32.ofRatio 2 10))
     else m_logRotationTime s)
  /\ firstTime (rotateLogFiles appName env s).2
     = firstTime s && negb (rotateLogFiles appName env s).1.
Proof.
  destruct (rotateLogFiles_split env s) as (s2 & [_ _ _ _ Hr Hf _] & ->).
  destruct (rotateLogFiles appName env s).1; cbn [fst snd andb negb].
  - unfold rotateFinish. cbv zeta. rewrite Hf, Hr.
    destruct (firstTime s); destruct (_ && _ && _ && _); cbn; done.
  - by rewrite Hr, Hf, andb_true_r.
Qed.








End ScanFrames.

Lemma rotation_average_skips_first_pass_witness :
  m_logRotationTime
    (rotateLogFiles "app" (envRotationElapsed (Float32.ofZ 1))
       (set_logRotationTime (Float32.ofRatio 1 2)
          (set_firstTime false (readyState ∅)))).2
  = S754_finite false 10066330 (-24).
Proof.
  destruct (rotation_average_skips_first_pass "app" (envRotationElapsed (Float32.ofZ 1))
              (set_logRotationTime (Float32.ofRatio 1 2)
                 (set_firstTime false (readyState ∅)))) as [H _].
  rewrite H. vm_compute. reflexivity.
Defined.


(** ** Log files and the name pattern *)




Lemma length_append a b :
  String.length (a +:+ b) = String.length a + String.length b.
Proof.
  induction a as [|x a IH]; [done|]. rewrite append_cons. cbn. by rewrite IH.
Qed.





Section DirectoryProperties.

Variable appName : string.
Local Abbreviation main := (mainLogFileName appName).

Lemma rotateFinish_fs env s : fs (rotateFinish appName env s) = fs s.
Proof.
  unfold rotateFinish. cbn [fs set_logFileName set_firstTime].
  destruct (firstTime s); cbn [fs set_logRotationTime];
    repeat match goal with |- context [if ?b then _ else _] => destruct b end; done.
Qed.











Lemma createMainFile_true env s s' :
  createMainFile appName env s = (true, s') ->
  fs s' = <[main := ""]> (fs s) /\ cfg s' = cfg s.
Proof.
  destruct (create_fails env main) eqn:H.
  - rewrite createMainFile_fails by done. discriminate.
  - rewrite createMainFile_ok by done. by intros [= <-].
Qed.

Lemma makeNewFile_true env l s s' :
  makeNewFile appName env l s = (true, s') ->
  fs s' !! main = Some "" /\ cfg s' = cfg s.
Proof.
  unfold makeNewFile.
  match goal with |- context [if ?b then removeLastFile env l s else _] =>
    pose proof (frame_removeLastFile env l s) as Hf1;
    assert (cfg (if b then removeLastFile env l s else (l, s)).2 = cfg s) as Hc1
      by (destruct b; [by destruct Hf1|done]);
    destruct (if b then removeLastFile env l s else (l, s)) as [l1 s1] end.
  clear Hf1. cbn [snd] in Hc1.
  pose proof (frame_tempRename env l1 s1) as Hf2.
  assert (cfg (if obstacleFound appName l1 then tempRename env l1 s1 else (l1, s1)).2
          = cfg s) as Hc2
    by (destruct (obstacleFound appName l1); [destruct Hf2; congruence|done]).
  destruct (if obstacleFound _ _ then _ else _) as [l2 s2]. clear Hf2. cbn [snd] in Hc2.
  pose proof (frame_linearRename appName env 0 l2 s2) as Hf3.
  destruct (linearRename _ _ _ _ _) as [l3 s3]. cbn [snd] in Hf3.
  intros [Hfs Hcfg]%createMainFile_true. split.
  - by rewrite Hfs, lookup_insert_eq.
  - destruct Hf3. congruence.
Qed.

Lemma scanAndRotate_current env s s' :
  scanAndRotate appName env s = (true, s') ->
  (1 <= m_maxLogFiles (cfg s))%N ->
  (1 <= m_maxLogFileSize (cfg s))%N ->
  exists c, fs s' !! main = Some c
    /\ (contentSize c < m_maxLogFileSize (cfg s))%N.
Proof.
  unfold scanAndRotate. intros Hrun Hmax Hsize.
  pose proof (NoDup_entryInfoList appName (fs s)) as Hnd.
  destruct (dropNonNumeric_dir env (entryInfoList appName (fs s)) s)
    as (Hsub & _ & Hkept & _).
  specialize (Hkept Hnd).
  pose proof (frame_dropNonNumeric env (entryInfoList appName (fs s)) s) as Hf0.
  destruct (dropNonNumeric env (entryInfoList appName (fs s)) s) as [l0 s0].
  cbn [fst snd] in *.
  assert (cfg s0 = cfg s) as Hcfg0 by (by destruct Hf0).
  assert (NoDup (names (sortByPostfix l0))) as Hnd0.
  { unfold names, sortByPostfix. rewrite merge_sort_Permutation.
    eapply sublist_NoDup; [exact Hnd|by apply fmap_sublist]. }
  assert (forall f, f ∈ sortByPostfix l0 -> f ∈ l0) as Hsort.
  { intros f. unfold sortByPostfix. by rewrite merge_sort_Permutation. }
  destruct (sortByPostfix l0) as [|f0 rest].
  { apply createMainFile_true in Hrun as [Hfs _]. exists "".
    rewrite Hfs, lookup_insert_eq. split; [done|].
    change (contentSize "") with 0%N. lia. }
  destruct (removeRedundant_dir env (length (f0 :: rest)) (f0 :: rest) s0)
    as (removed & Hl & Hout1 & _).
  pose proof (removeRedundant_nonempty env (length (f0 :: rest)) (f0 :: rest) s0
                ltac:(done) ltac:(by rewrite Hcfg0)) as Hne.
  pose proof (frame_removeRedundant env (length (f0 :: rest)) (f0 :: rest) s0) as Hf1.
  destruct (removeRedundant env (length (f0 :: rest)) (f0 :: rest) s0) as [l1 s1].
  cbn [fst snd] in *.
  assert (cfg s1 = cfg s) as Hcfg1 by (destruct Hf1; congruence).
  destruct l1 as [|first l1']; [done|].
  destruct (_ || _) eqn:Hnew.
  - apply makeNewFile_true in Hrun as [Hfs _]. exists "".
    split; [done|]. change (contentSize "") with 0%N. lia.
  - injection Hrun as <-. apply orb_false_iff in Hnew as [Hsz Hname].
    apply N.leb_gt in Hsz. apply negb_false_iff, bool_decide_eq_true in Hname.
    rewrite Hcfg1 in Hsz.
    assert (first ∈ l0) as Hin0.
    { apply Hsort. rewrite Hl. apply elem_of_app. left. by left. }
    assert (first ∈ entryInfoList appName (fs s)) as Hin
      by (eapply elem_of_sublist; [exact Hin0|exact Hsub]).
    apply elem_of_entryInfoList in Hin as [_ (c & Hc & Hs)].
    exists c. split; [|by rewrite <- Hs].
    rewrite Hl in Hnd0. unfold names in Hnd0. rewrite fmap_app in Hnd0.
    apply NoDup_app in Hnd0 as (_ & Hdis & _).
    rewrite Hout1 by (apply Hdis; rewrite <- Hname; cbn; by left).
    rewrite <- Hname, Hkept by (unfold names; apply list_elem_of_fmap; eauto).
    done.
Qed.

(** X15: after a successful rotation pass the current file name is the main
    name, and (with both limits at least 1, as the defaults and [initLogging]
    guarantee) that file exists in the directory and is below the size
    limit: it is the kept file, or a new empty one. *)
Theorem rotation_success_current_file (env : Env) (s s' : State) :
  rotateLogFiles appName env s = (true, s') ->
  (1 <= m_maxLogFiles (cfg s))%N ->
  (1 <= m_maxLogFileSize (cfg s))%N ->
  m_logFileName s' = main /\
  exists c, fs s' !! main = Some c
    /\ (contentSize c < m_maxLogFileSize (cfg s))%N.
Proof.
  intros Hrun Hmax Hsize.
  split; [by apply rotateLogFiles_true in Hrun as [? _]|].
  revert Hrun. unfold rotateLogFiles.
  destruct (decide (m_logDir (cfg s) = "")); [discriminate|].
  set (s1 := set_logFileName (checkCurrentName appName s) s).
  destruct (decide (m_logFileName s1 = "")) as [Hempty|Hkeep].
  - destruct (scanAndRotate appName env s1) as [[] s2] eqn:Hscan; [|discriminate].
    intros [= <-]. rewrite rotateFinish_fs.
    by apply (scanAndRotate_current env s1 s2).
  - intros [= <-]. rewrite rotateFinish_fs.
    subst s1. cbn [fs m_logFileName set_logFileName] in *.
    unfold checkCurrentName in Hkeep.
    destruct (decide (m_logFileName s = "")); [done|].
    destruct (decide (m_logFileName s = main)) as [Hm|]; [|done].
    rewrite Hm in Hkeep.
    destruct (fs s !! main) as [c|]; [|done].
    destruct (_ <=? _)%N eqn:Hsz; [done|]. apply N.leb_gt in Hsz.
    by exists c.
Qed.

End DirectoryProperties.



Lemma rotation_success_current_file_witness :
  m_logFileName (rotateLogFiles "app" quietEnv (readyState gappedDir)).2 = "app_0.log"
  /\ exists c,
      fs (rotateLogFiles "app" quietEnv (readyState gappedDir)).2 !! "app_0.log" = Some c
      /\ (contentSize c < 10 * 1024 * 1024)%N.
Proof.
  apply (rotation_success_current_file "app" quietEnv (readyState gappedDir)).
  - vm_compute. reflexivity.
  - vm_compute. discriminate.
  - vm_compute. discriminate.
Defined.

(** ** File names and their numbers *)

Lemma digitValue_pretty d :
  (d < 10)%N -> QStr.digitValue (pretty_N_char d) = Some d.
Proof.
  intros Hd.
  assert (d = 0 \/ d = 1 \/ d = 2 \/ d = 3 \/ d = 4 \/ d = 5 \/ d = 6 \/ d = 7
          \/ d = 8 \/ d = 9)%N as H by lia.
  repeat destruct H as [->|H]; try subst d; reflexivity.
Qed.

Lemma parseDigits_pretty x s :
  QStr.parseDigits (pretty_N_go x s) 0 = QStr.parseDigits s x.
Proof.
  revert s. induction x as [x IH] using (well_founded_ind N.lt_wf_0). intros s.
  destruct (decide (x = 0)%N) as [->|Hx]; [by rewrite pretty_N_go_0|].
  rewrite pretty_N_go_step by lia.
  rewrite IH by (apply N.div_lt; lia).
  cbn [QStr.parseDigits]. rewrite digitValue_pretty by (apply N.mod_lt; lia).
  cbn. f_equal. rewrite N.mul_comm. symmetry. apply N.div_mod. lia.
Qed.

Lemma pretty_N_go_nonempty x s : s <> "" -> pretty_N_go x s <> "".
Proof.
  revert s. induction x as [x IH] using (well_founded_ind N.lt_wf_0). intros s Hs.
  destruct (decide (x = 0)%N) as [->|Hx]; [by rewrite pretty_N_go_0|].
  rewrite pretty_N_go_step by lia. apply IH; [apply N.div_lt; lia|done].
Qed.

Lemma number_nonempty i : QStr.number i <> "".
Proof.
  unfold QStr.number, pretty, pretty_nat, pretty, pretty_N.
  destruct (decide _); [done|].
  rewrite pretty_N_go_step by lia. by apply pretty_N_go_nonempty.
Qed.

(** [toUInt] reads back what [number] wrote. *)
Lemma toUInt_number i :
  (N.of_nat i <= 4294967295)%N -> QStr.toUInt (QStr.number i) = Some (N.of_nat i).
Proof.
  intros Hi. unfold QStr.toUInt.
  destruct (decide _) as [He|_]; [by apply number_nonempty in He|].
  assert (QStr.parseDigits (QStr.number i) 0 = Some (N.of_nat i)) as ->.
  { unfold QStr.number, pretty, pretty_nat, pretty, pretty_N.
    destruct (decide _) as [->|_]; [done|]. by rewrite parseDigits_pretty. }
  cbn. by apply N.leb_le in Hi as ->.
Qed.

Lemma indexOfFrom_app_absent c a b i j :
  (0 <= j)%Z -> QStr.indexOfFrom c a j = (-1)%Z ->
  QStr.indexOfFrom c (a +:+ b) i
  = QStr.indexOfFrom c b (i + Z.of_nat (String.length a))%Z.
Proof.
  revert i j. induction a as [|x a IH]; intros i j Hj Ha.
  - cbn. f_equal. lia.
  - rewrite append_cons. cbn [QStr.indexOfFrom String.length] in *.
    destruct (decide (x = c)); [lia|].
    rewrite (IH (i + 1)%Z (j + 1)%Z) by (done || lia). f_equal. lia.
Qed.


Lemma lastIndexOfFrom_app c a b i found :
  QStr.lastIndexOfFrom c (a +:+ b) i found
  = QStr.lastIndexOfFrom c b (i + Z.of_nat (String.length a))%Z
      (QStr.lastIndexOfFrom c a i found).
Proof.
  revert i found. induction a as [|x a IH]; intros i found.
  - cbn. f_equal. lia.
  - rewrite append_cons. cbn [QStr.lastIndexOfFrom String.length].
    rewrite IH. f_equal. lia.
Qed.

(** In a name that ends with [".log"] the last dot is the one of the
    extension. *)
Lemma lastIndexOf_log a :
  QStr.lastIndexOf "."%char (a +:+ ".log") = Z.of_nat (String.length a).
Proof.
  unfold QStr.lastIndexOf. rewrite lastIndexOfFrom_app. cbn. done.
Qed.

Lemma substring_skip a b n m :
  substring (String.length a + n) m (a +:+ b) = substring n m b.
Proof. induction a as [|x a IH]; [done|]. rewrite append_cons. cbn. exact IH. Qed.

Lemma substring_prefix d e : substring 0 (String.length d) (d +:+ e) = d.
Proof.
  induction d as [|x d IH]; [by destruct e|]. rewrite append_cons. cbn. by rewrite IH.
Qed.














Section Names.

Variable appName : string.
Local Abbreviation main := (mainLogFileName appName).

(** With no underscore in the application name, the postfix expression cuts
    out exactly what stands between ["appName_"] and [".log"]. *)
Lemma postfix_between x :
  QStr.indexOf "_"%char appName = (-1)%Z ->
  postfix (appName +:+ "_" +:+ x +:+ ".log") = x.
Proof.
  intros Hno. unfold postfix.
  assert (QStr.indexOf "_"%char (appName +:+ "_" +:+ x +:+ ".log")
          = Z.of_nat (String.length appName)) as ->.
  { unfold QStr.indexOf in *. by rewrite (indexOfFrom_app_absent _ _ _ 0 0). }
  assert (QStr.lastIndexOf "."%char (appName +:+ "_" +:+ x +:+ ".log")
          = Z.of_nat (String.length appName + 1 + String.length x)) as ->.
  { rewrite <- (string_app_assoc "_"), <- (string_app_assoc appName).
    rewrite lastIndexOf_log, !length_append.
    change (String.length "_") with 1. f_equal. lia. }
  unfold QStr.mid. rewrite !length_append.
  change (String.length "_") with 1. change (String.length ".log") with 4.
  set (a := String.length appName). set (n := String.length x).
  destruct (_ <? _)%Z eqn:E1; [apply Z.ltb_lt in E1; lia|].
  destruct (_ <? 0)%Z eqn:E2; [apply Z.ltb_lt in E2; lia|].
  replace (Z.of_nat (a + 1 + n) - Z.of_nat a - 1)%Z with (Z.of_nat n) by lia.
  destruct (Z.of_nat n <? 0)%Z eqn:E3; [apply Z.ltb_lt in E3; lia|].
  destruct (_ <? Z.of_nat n)%Z eqn:E4; [apply Z.ltb_lt in E4; lia|].
  cbn [orb]. replace (Z.to_nat (Z.of_nat a + 1)) with (a + 1) by lia.
  rewrite Nat2Z.id. subst a n.
  rewrite <- (string_app_assoc appName "_").
  replace (String.length appName + 1) with (String.length (appName +:+ "_") + 0)
    by (rewrite length_append; cbn; lia).
  rewrite substring_skip. apply substring_prefix.
Qed.

Lemma toUInt_postfix_logName i :
  QStr.indexOf "_"%char appName = (-1)%Z ->
  (N.of_nat i <= 4294967295)%N ->
  QStr.toUInt (postfix (logName appName i)) = Some (N.of_nat i).
Proof.
  intros Hno Hi. unfold logName. rewrite postfix_between by done.
  by apply toUInt_number.
Qed.

Lemma logName_inj i j :
  QStr.indexOf "_"%char appName = (-1)%Z ->
  (N.of_nat i <= 4294967295)%N -> (N.of_nat j <= 4294967295)%N ->
  logName appName i = logName appName j -> i = j.
Proof.
  intros Hno Hi Hj Heq.
  pose proof (toUInt_postfix_logName i Hno Hi) as H1.
  rewrite Heq, toUInt_postfix_logName in H1 by done.
  injection H1 as H1. lia.
Qed.

(** X16: with no underscore in the application name, the number the rotation
    reads from a file name it produced is the number it wrote into it (for
    numbers in the range of [quint32]), so different numbers give different
    file names. *)
Theorem logName_number_round_trip (i j : nat) :
  QStr.indexOf "_"%char appName = (-1)%Z ->
  (N.of_nat i <= 4294967295)%N -> (N.of_nat j <= 4294967295)%N ->
  postfixNumber (mkFileInfo (logName appName i) 0) = N.of_nat i /\
  (logName appName i = logName appName j -> i = j).
Proof.
  intros Hno Hi Hj. split; [|by apply logName_inj].
  unfold postfixNumber. cbn [fileName]. by rewrite toUInt_postfix_logName.
Qed.


End Names.

Lemma logName_number_round_trip_witness :
  postfixNumber (mkFileInfo (logName "app" 12) 0) = 12%N
  /\ (logName "app" 12 = logName "app" 7 -> 12 = 7).
Proof.
  apply (logName_number_round_trip "app" 12 7).
  - reflexivity.
  - vm_compute. discriminate.
  - vm_compute. discriminate.
Defined.

(** ** What a rotation pass does to the log files *)



Section UnderscoreName.

Variable appName : string.
Local Abbreviation main := (mainLogFileName appName).


End UnderscoreName.

#[global] Instance postfixLe_total : Total postfixLe.
Proof. intros a b. unfold postfixLe. lia. Qed.



Section Shift.

Variable appName : string.
Local Abbreviation main := (mainLogFileName appName).
Hypothesis no_underscore : QStr.indexOf "_"%char appName = (-1)%Z.










End Shift.


